(** * MACD strategy engine: a shallow embedding and its checked properties

    The development follows the three Python sources:
    - [Enhanced_MACD_Strategy.py]            (single asset, pandas based): module [SingleAsset];
    - [QuantConnect_Enhanced_MACD_Strategy.py] (multi asset, hand written EMA): module [EnhancedETF];
    - [QuantConnect_Simple_MACD_ETF.py]      (multi asset, built-in indicators): module [SimpleETF].
    The data feed, the portfolio metrics and the signal generation of the two
    multi-asset algorithms are in [EnhancedETFRun] and [SimpleETFRun].

    Numbers.  Python floats are modelled by exact rationals [Q]; rounding,
    overflow and signed zeros are outside the model.  Where the pandas code
    can produce missing or infinite entries (the first row of [pct_change],
    [shift], [diff]; a division by a zero price) the column type is [fval],
    which adds [NaN] and the two infinities to [Q].  Equalities between
    computed rationals are stated with [==] ([Qeq]).  Where rounding decides
    a property, the code is read in binary64 as well: the hand-written EMA is
    evaluated with the IEEE operations of [SpecFloat] in [EnhancedETFFloat],
    and range statements about it are made for the exact recursion only.

    Exceptions.  A Python function that can raise returns [result A]. *)

From Stdlib Require Import QArith Qminmax Qabs Lqa ZArith Lia List SpecFloat.
From stdpp Require Import gmap strings list fin_maps.

Open Scope Q_scope.

(** ** Exceptions *)

Inductive exn := IndexError | KeyError | ZeroDivisionError | ValueError | OverflowError.

Inductive result (A : Type) :=
| Ok (a : A)
| Raise (e : exn).
Arguments Ok {A} a.
Arguments Raise {A} e.

Definition rbind {A B} (r : result A) (k : A -> result B) : result B :=
  match r with
  | Ok a => k a
  | Raise e => Raise e
  end.

Notation "x <-- r ;; k" := (rbind r (fun x => k))
  (at level 100, r at next level, right associativity).

(** ** Python [min], [max] and [int] on numbers *)

(** [min(a, b)] returns [b] when [b < a] and [a] otherwise; [max(a, b)]
    returns [b] when [b > a] and [a] otherwise. *)
Definition py_min (a b : Q) : Q := if Qlt_le_dec b a then b else a.
Definition py_max (a b : Q) : Q := if Qlt_le_dec a b then b else a.

(** [int(x)] truncates towards zero. *)
Definition py_int (x : Q) : Z := Z.quot (Qnum x) (Zpos (Qden x)).

(** ** Sums and weighted sums of rationals *)

Definition Qsum (l : list Q) : Q := fold_right Qplus 0 l.

Fixpoint Qdot (ws xs : list Q) : Q :=
  match ws, xs with
  | w :: ws', x :: xs' => w * x + Qdot ws' xs'
  | _, _ => 0
  end.

(** Convex weights: non-negative, summing to one. *)
Definition convex_weights (ws : list Q) : Prop :=
  Forall (fun w => 0 <= w) ws /\ Qsum ws == 1.

(** Least and greatest element of a list ([0] on the empty list, where
    Python's [min]/[max] raise; the lemmas below use them on non-empty lists). *)
Definition Qlist_min (l : list Q) : Q :=
  match l with
  | [] => 0
  | x :: xs => fold_left Qmin xs x
  end.

Definition Qlist_max (l : list Q) : Q :=
  match l with
  | [] => 0
  | x :: xs => fold_left Qmax xs x
  end.

(** ** Float columns: rationals with NaN and infinities *)

Inductive fval :=
| Fin (q : Q)
| PInf
| NInf
| NaN.

Definition fneg (x : fval) : fval :=
  match x with
  | Fin q => Fin (- q)
  | PInf => NInf
  | NInf => PInf
  | NaN => NaN
  end.

Definition fadd (x y : fval) : fval :=
  match x, y with
  | NaN, _ | _, NaN => NaN
  | Fin a, Fin b => Fin (a + b)
  | PInf, NInf | NInf, PInf => NaN
  | PInf, _ | _, PInf => PInf
  | NInf, _ | _, NInf => NInf
  end.

Definition fsub (x y : fval) : fval := fadd x (fneg y).

(** [pos] with the sign of [q]; [NaN] when [q == 0] (0 * inf, 0 / 0). *)
Definition inf_signed (q : Q) (pos : fval) : fval :=
  match q ?= 0 with
  | Gt => pos
  | Lt => fneg pos
  | Eq => NaN
  end.

Definition fmul (x y : fval) : fval :=
  match x, y with
  | NaN, _ | _, NaN => NaN
  | Fin a, Fin b => Fin (a * b)
  | Fin a, PInf | PInf, Fin a => inf_signed a PInf
  | Fin a, NInf | NInf, Fin a => inf_signed a NInf
  | PInf, PInf | NInf, NInf => PInf
  | PInf, NInf | NInf, PInf => NInf
  end.

(** numpy division: a zero divisor gives an infinity (or NaN for 0/0), never
    an exception. *)
Definition fdiv (x y : fval) : fval :=
  match x, y with
  | NaN, _ | _, NaN => NaN
  | Fin a, Fin b => if Qeq_bool b 0 then inf_signed a PInf else Fin (a / b)
  | Fin _, _ => Fin 0
  | PInf, Fin b => if Qle_bool 0 b then PInf else NInf
  | NInf, Fin b => if Qle_bool 0 b then NInf else PInf
  | _, _ => NaN
  end.

Definition fabs (x : fval) : fval :=
  match x with
  | Fin q => Fin (Qabs q)
  | PInf | NInf => PInf
  | NaN => NaN
  end.

(** [x < y]; every comparison with NaN is false. *)
Definition flt (x y : fval) : bool :=
  match x, y with
  | NaN, _ | _, NaN => false
  | Fin a, Fin b => negb (Qle_bool b a)
  | NInf, NInf | PInf, _ | _, NInf => false
  | NInf, _ | _, PInf => true
  end.

Definition fgt (x y : fval) : bool := flt y x.

Definition fmax (x y : fval) : fval := if flt x y then y else x.
Definition fmin (x y : fval) : fval := if flt y x then y else x.

Definition is_nan (x : fval) : bool :=
  match x with
  | NaN => true
  | _ => false
  end.

(** ** pandas column operations *)

(** [s.shift(1)]: one step down, NaN at the top, same length. *)
Definition shift1 (l : list fval) : list fval :=
  match l with
  | [] => []
  | _ :: _ => NaN :: removelast l
  end.

(** [s.dropna()] *)
Definition dropna (l : list fval) : list fval :=
  filter (fun x => is_nan x = false) l.

(** [s.iloc[-1]] *)
Definition iloc_last {A} (l : list A) : result A :=
  match last l with
  | Some x => Ok x
  | None => Raise IndexError
  end.

(** [s.pct_change()] on a column without missing entries: [s / s.shift(1) - 1]. *)
Definition pct_change (l : list fval) : list fval :=
  zip_with (fun c p => fsub (fdiv c p) (Fin 1)) l (shift1 l).

(** [s.diff()]: [s - s.shift(1)]. *)
Definition diff (l : list fval) : list fval :=
  zip_with fsub l (shift1 l).

(** [s.cumprod()]: missing entries stay missing and are skipped by the
    running product. *)
Fixpoint cumprod_from (acc : fval) (l : list fval) : list fval :=
  match l with
  | [] => []
  | NaN :: xs => NaN :: cumprod_from acc xs
  | x :: xs => let acc' := fmul acc x in acc' :: cumprod_from acc' xs
  end.

Definition cumprod (l : list fval) : list fval := cumprod_from (Fin 1) l.

(** [s.cumsum()] on an integer column. *)
Fixpoint cumsum_from (acc : Z) (l : list Z) : list Z :=
  match l with
  | [] => []
  | x :: xs => let acc' := (acc + x)%Z in acc' :: cumsum_from acc' xs
  end.

Definition cumsum (l : list Z) : list Z := cumsum_from 0%Z l.

(** [s.clip(lower, upper)] on an integer column. *)
Definition clip (lower upper : Z) (l : list Z) : list Z :=
  map (fun z => if (z <? lower)%Z then lower else if (upper <? z)%Z then upper else z) l.

(** [s.expanding().max()]: running maximum over the entries seen so far,
    missing entries skipped, NaN while nothing has been seen. *)
Fixpoint expanding_max_from (acc : fval) (l : list fval) : list fval :=
  match l with
  | [] => []
  | x :: xs =>
      let acc' := if is_nan x then acc else if is_nan acc then x else fmax acc x in
      acc' :: expanding_max_from acc' xs
  end.

Definition expanding_max (l : list fval) : list fval := expanding_max_from NaN l.

(** [s.min()]: least non-missing entry, NaN when there is none. *)
Definition col_min (l : list fval) : fval :=
  fold_left (fun acc x => if is_nan x then acc else if is_nan acc then x else fmin acc x) l NaN.

Definition fsum (l : list fval) : fval := fold_left fadd l (Fin 0).

Definition flen (l : list fval) : fval := Fin (inject_Z (Z.of_nat (length l))).

Definition fmean (l : list fval) : fval := fdiv (fsum l) (flen l).

(** Sample covariance and variance ([ddof = 1]); NaN below two samples. *)
Definition sample_cov (xs ys : list fval) : fval :=
  if (length xs <? 2)%nat then NaN
  else
    let mx := fmean xs in
    let my := fmean ys in
    fdiv (fsum (zip_with (fun x y => fmul (fsub x mx) (fsub y my)) xs ys))
         (Fin (inject_Z (Z.of_nat (length xs) - 1))).

Definition sample_var (xs : list fval) : fval := sample_cov xs xs.

(** [s.ewm(span=span).mean()] with pandas' defaults ([adjust=True]): the
    average of the entries seen so far with weights [(1 - alpha)^i],
    [alpha = 2 / (span + 1)], newest entry first.  pandas refuses [span < 1]. *)
Fixpoint ewm_from (decay num den : Q) (xs : list Q) : list Q :=
  match xs with
  | [] => []
  | x :: xs' =>
      let num' := x + decay * num in
      let den' := 1 + decay * den in
      (num' / den') :: ewm_from decay num' den' xs'
  end.

Definition ewm_alpha (span : Z) : Q := 2 / (inject_Z span + 1).

Definition ewm_mean (span : Z) (xs : list Q) : result (list Q) :=
  if (span <? 1)%Z then Raise ValueError
  else Ok (ewm_from (1 - ewm_alpha span) 0 0 xs).

(** Python slices [l[a:b]] and [l[a:]] with possibly negative bounds. *)
Definition slice_bound (n i : Z) : Z :=
  if (i <? 0)%Z then Z.max 0 (n + i) else Z.min i n.

Definition py_slice {A} (a b : Z) (l : list A) : list A :=
  let n := Z.of_nat (length l) in
  let a' := slice_bound n a in
  let b' := slice_bound n b in
  firstn (Z.to_nat (b' - a')) (skipn (Z.to_nat a') l).

Definition py_slice_from {A} (a : Z) (l : list A) : list A :=
  skipn (Z.to_nat (slice_bound (Z.of_nat (length l)) a)) l.

(** [range(start, stop, step)]; a zero step raises. *)
Definition py_range (start stop step : Z) : result (list Z) :=
  if (step =? 0)%Z then Raise ValueError
  else
    let count :=
      if (0 <? step)%Z
      then (if (start <? stop)%Z then (stop - start - 1) / step + 1 else 0)%Z
      else (if (stop <? start)%Z then (start - stop - 1) / (- step) + 1 else 0)%Z in
    Ok (map (fun k => (start + Z.of_nat k * step)%Z) (seq 0 (Z.to_nat count))).

(** ** Enhanced_MACD_Strategy.py *)

Module SingleAsset.

(** The frame returned by [generate_signals]: the input's [Close] column and
    the derived columns, all of the same length.  [position] holds the
    integers -1, 0, 1 when it comes from [generate_signals]; it is kept
    rational because [calculate_returns] accepts any numeric column. *)
Record signals_frame := {
  Close : list Q;
  macd : list Q;
  signal : list Q;
  histogram : list Q;
  signal_trigger : list Z;
  position : list Q
}.

(** The frame returned by [calculate_returns]. *)
Record results_frame := {
  signals_of : signals_frame;
  market_return : list fval;
  position_change : list fval;
  transaction_costs : list fval;
  strategy_return : list fval;
  market_cumulative : list fval;
  strategy_cumulative : list fval
}.

Record metrics := {
  total_return : fval;
  market_total_return : fval;
  annual_return : fval;
  volatility : fval;
  sharpe_ratio : fval;
  max_drawdown : fval;
  win_rate : fval;
  beta : fval
}.

(** [calculate_macd(self, data, fast_period, slow_period, signal_period)];
    [data] is given by its [Close] column.  Returns the columns
    [(macd, signal, histogram)]. *)
Definition calculate_macd (data : list Q) (fast_period slow_period signal_period : Z)
  : result (list Q * list Q * list Q) :=
  ema_fast <-- ewm_mean fast_period data ;;
  ema_slow <-- ewm_mean slow_period data ;;
  let macd := zip_with Qminus ema_fast ema_slow in
  signal <-- ewm_mean signal_period macd ;;
  let histogram := zip_with Qminus macd signal in
  Ok (macd, signal, histogram).

(** The body of the loop of [generate_signals] at index [i >= 1]. *)
Definition trigger_at (macd signal : list Q) (i : nat) : Z :=
  let m := nth i macd 0 in
  let s := nth i signal 0 in
  let m' := nth (i - 1) macd 0 in
  let s' := nth (i - 1) signal 0 in
  if negb (Qle_bool m s) && Qle_bool m' s' then 1%Z
  else if negb (Qle_bool s m) && Qle_bool s' m' then (-1)%Z
  else 0%Z.

(** [signal_trigger] starts as a column of zeros; [range(1, len(signals))]
    leaves row 0 untouched. *)
Definition triggers (macd signal : list Q) : list Z :=
  map (fun i => match i with
                | O => 0%Z
                | S _ => trigger_at macd signal i
                end) (seq 0 (length macd)).

(** [generate_signals(self, data, fast_period, slow_period, signal_period)].
    The chained assignment [signals['signal_trigger'].iloc[i] = ...] is taken
    to write into the frame, as the code means it to. *)
Definition generate_signals (data : list Q) (fast_period slow_period signal_period : Z)
  : result signals_frame :=
  columns <-- calculate_macd data fast_period slow_period signal_period ;;
  let '(macd, signal, histogram) := columns in
  let signal_trigger := triggers macd signal in
  let position := clip (-1) 1 (cumsum signal_trigger) in
  Ok {| Close := data; macd := macd; signal := signal; histogram := histogram;
        signal_trigger := signal_trigger; position := map inject_Z position |}.

(** [calculate_returns(self, signals, transaction_cost)] *)
Definition calculate_returns (signals : signals_frame) (transaction_cost : Q) : results_frame :=
  let close := map Fin (Close signals) in
  let pos := map Fin (position signals) in
  let market_return := pct_change close in
  let position_change := map fabs (diff pos) in
  let transaction_costs := map (fun c => fmul c (Fin transaction_cost)) position_change in
  let strategy_return :=
    zip_with fsub (zip_with fmul (shift1 pos) market_return) transaction_costs in
  {| signals_of := signals;
     market_return := market_return;
     position_change := position_change;
     transaction_costs := transaction_costs;
     strategy_return := strategy_return;
     market_cumulative := cumprod (map (fadd (Fin 1)) market_return);
     strategy_cumulative := cumprod (map (fadd (Fin 1)) strategy_return) |}.

Definition default_transaction_cost : Q := 1 # 1000.

Section Metrics.

(** [np.sqrt] and the float power [**] are irrational; they are left
    uninterpreted.  Nothing below depends on what they return. *)
Variable np_sqrt : fval -> fval.
Variable np_power : fval -> Q -> fval.

(** [calculate_metrics(self, returns)] *)
Definition calculate_metrics (returns : results_frame) : result metrics :=
  let strategy_returns := dropna (strategy_return returns) in
  let market_returns := dropna (market_return returns) in
  last_strategy <-- iloc_last (strategy_cumulative returns) ;;
  let total_return := fsub last_strategy (Fin 1) in
  last_market <-- iloc_last (market_cumulative returns) ;;
  let market_total := fsub last_market (Fin 1) in
  (* 252 / len(strategy_returns): Python division, raises on a zero length *)
  exponent <-- (match length strategy_returns with
                | O => Raise ZeroDivisionError
                | S _ => Ok (252 / inject_Z (Z.of_nat (length strategy_returns)))
                end) ;;
  let annual_return := fsub (np_power (fadd (Fin 1) total_return) exponent) (Fin 1) in
  let volatility := fmul (np_sqrt (sample_var strategy_returns)) (np_sqrt (Fin 252)) in
  let sharpe_ratio := if fgt volatility (Fin 0) then fdiv annual_return volatility else Fin 0 in
  let running_max := expanding_max (strategy_cumulative returns) in
  let drawdown :=
    zip_with (fun c r => fdiv (fsub c r) r) (strategy_cumulative returns) running_max in
  let max_drawdown := col_min drawdown in
  let winning_trades := filter (fun x => fgt x (Fin 0) = true) strategy_returns in
  let win_rate :=
    if (0 <? length strategy_returns)%nat
    then Fin (inject_Z (Z.of_nat (length winning_trades))
              / inject_Z (Z.of_nat (length strategy_returns)))
    else Fin 0 in
  beta <-- (if (0 <? length market_returns)%nat
               && fgt (np_sqrt (sample_var market_returns)) (Fin 0)
            then
              (* np.cov refuses arrays of different lengths *)
              if (length strategy_returns =? length market_returns)%nat
              then Ok (fdiv (sample_cov strategy_returns market_returns)
                            (sample_var market_returns))
              else Raise ValueError
            else Ok (Fin 0)) ;;
  Ok {| total_return := total_return;
        market_total_return := market_total;
        annual_return := annual_return;
        volatility := volatility;
        sharpe_ratio := sharpe_ratio;
        max_drawdown := max_drawdown;
        win_rate := win_rate;
        beta := beta |}.

(** [objective_function(self, params, data)]; [params] is the optimizer's
    candidate, three floats. *)
Definition objective_function (params : Q * Q * Q) (data : list Q) : fval :=
  let '(p0, p1, p2) := params in
  let fast_period := py_int p0 in
  let slow_period := py_int p1 in
  let signal_period := py_int p2 in
  if (slow_period <=? fast_period)%Z || (fast_period <? 1)%Z || (signal_period <? 1)%Z
  then NInf                                     (* return -np.inf *)
  else
    match
      (signals <-- generate_signals data fast_period slow_period signal_period ;;
       let results := calculate_returns signals default_transaction_cost in
       m <-- calculate_metrics results ;;
       Ok (fneg (sharpe_ratio m)))
    with
    | Ok score => score
    | Raise _ => PInf                           (* except: return np.inf *)
    end.

(** [scipy.optimize.minimize] is an external search; it is a parameter:
    given the objective it returns [Some x] ([result.success], [result.x])
    or [None]. *)
Variable minimize : (Q * Q * Q -> fval) -> option (Q * Q * Q).

(** [optimize_parameters(self, optimization_window)] for [self.data] present. *)
Definition optimize_parameters (data : list Q) (optimization_window : Z) : Z * Z * Z :=
  let opt_data := py_slice 0 optimization_window data in
  match minimize (fun params => objective_function params opt_data) with
  | Some (x0, x1, x2) => (py_int x0, py_int x1, py_int x2)
  | None => (12, 26, 9)%Z
  end.

(** One pass of the loop of [walk_forward_analysis]: the index bounds of the
    optimization window and of the test window for [start_idx]. *)
Record window := {
  opt_start : Z;
  opt_end : Z;
  test_start : Z;
  test_end : Z
}.

Definition window_at (n optimization_window test_window start_idx : Z) : window :=
  let opt_end := (start_idx + optimization_window)%Z in
  {| opt_start := start_idx;
     opt_end := opt_end;
     test_start := opt_end;
     test_end := Z.min (opt_end + test_window) n |}.

(** The windows visited by
    [for start_idx in range(0, len(self.data) - optimization_window - test_window, test_window)]. *)
Definition walk_forward_windows (n optimization_window test_window : Z) : result (list window) :=
  starts <-- py_range 0 (n - optimization_window - test_window) test_window ;;
  Ok (map (window_at n optimization_window test_window) starts).

Record period_result := {
  start_row : Z;
  end_row : Z;
  parameters : Z * Z * Z;
  period_return : fval;
  period_sharpe : fval
}.

Definition walk_forward_step (data : list Q) (w : window) : result period_result :=
  let opt_data := py_slice (opt_start w) (opt_end w) data in
  let test_data := py_slice (test_start w) (test_end w) data in
  (* temp_strategy.optimize_parameters() runs with its default window, 252 *)
  let '(fast, slow, sig) := optimize_parameters opt_data 252 in
  signals <-- generate_signals test_data fast slow sig ;;
  let results := calculate_returns signals default_transaction_cost in
  (* test_data.index[0], test_data.index[-1] *)
  _ <-- iloc_last test_data ;;
  ret <-- iloc_last (strategy_cumulative results) ;;
  m <-- calculate_metrics results ;;
  Ok {| start_row := test_start w;
        end_row := (test_end w - 1)%Z;
        parameters := (fast, slow, sig);
        period_return := fsub ret (Fin 1);
        period_sharpe := sharpe_ratio m |}.

Fixpoint walk_forward_loop (data : list Q) (ws : list window) : result (list period_result) :=
  match ws with
  | [] => Ok []
  | w :: ws' =>
      r <-- walk_forward_step data w ;;
      rs <-- walk_forward_loop data ws' ;;
      Ok (r :: rs)
  end.

(** [walk_forward_analysis(self, optimization_window, test_window)] for
    [self.data] present. *)
Definition walk_forward_analysis (data : list Q) (optimization_window test_window : Z)
  : result (list period_result) :=
  ws <-- walk_forward_windows (Z.of_nat (length data)) optimization_window test_window ;;
  walk_forward_loop data ws.

End Metrics.

End SingleAsset.

(** ** Statistics on lists of finite floats ([np.mean], [np.std]) *)

Definition np_mean (l : list Q) : Q := Qsum l / inject_Z (Z.of_nat (length l)).

(** Population variance, [np.std(l) ** 2].  On the empty list numpy answers
    NaN; the callers below reach it only with a window length below 1. *)
Definition pop_var (l : list Q) : Q :=
  let mu := np_mean l in
  np_mean (map (fun x => (x - mu) * (x - mu)) l).

(** ** QuantConnect_Enhanced_MACD_Strategy.py *)

Module EnhancedETF.

(** One entry of [self.etfs]; the two deques keep the oldest entry first. *)
Record etf_data := {
  macd : option Q;
  ema_fast : option Q;
  ema_slow : option Q;
  signal_line : option Q;
  position : Q;
  last_signal : Q;
  optimal_params : Z * Z * Z;
  price_history : list Q;
  returns : list Q
}.

(** The attributes of the algorithm object read by the functions below. *)
Record algorithm := {
  etfs : gmap string etf_data;
  max_position_size : Q;
  max_drawdown : Q;
  drawdown : Q;
  volatility_window : Z;
  min_history_for_optimization : Z
}.

(** [self.etfs[symbol_str]] *)
Definition etf_of (self : algorithm) (symbol_str : string) : result etf_data :=
  match etfs self !! symbol_str with
  | Some etf => Ok etf
  | None => Raise KeyError
  end.

(** [CalculateEMA(self, prices, period)].  The length test comes first; then
    [2.0 / (period + 1.0)] raises for [period = -1]; then [prices[0]] raises on
    an empty list; the loop runs over [prices[1:]].  Here the arithmetic is
    exact: this is the value of the recursion before rounding.  The value the
    program returns, rounded at every operation, is
    [EnhancedETFFloat.CalculateEMA]; the two agree on which branch is taken. *)
Definition ema_step (multiplier : Q) (ema price : Q) : Q :=
  (price * multiplier) + (ema * (1 - multiplier)).

Definition CalculateEMA (prices : list Q) (period : Z) : result (option Q) :=
  if (Z.of_nat (length prices) <? period)%Z then Ok None
  else if (period =? -1)%Z then Raise ZeroDivisionError
  else
    let multiplier := 2 / (inject_Z period + 1) in
    match prices with
    | [] => Raise IndexError
    | p0 :: rest => Ok (Some (fold_left (ema_step multiplier) rest p0))
    end.

(** [x or 0] on an optional float. *)
Definition or_zero (x : option Q) : Q :=
  match x with
  | Some v => v
  | None => 0
  end.

(** [UpdateMACDIndicators(self, symbol_str, price)]; [price] is not read, the
    caller has appended it to [price_history] already. *)
Definition UpdateMACDIndicators (self : algorithm) (symbol_str : string) (price : Q)
  : result algorithm :=
  etf <-- etf_of self symbol_str ;;
  let '(fast_period, slow_period, signal_period) := optimal_params etf in
  if (slow_period <=? Z.of_nat (length (price_history etf)))%Z then
    let prices := price_history etf in
    fast <-- CalculateEMA prices fast_period ;;
    slow <-- CalculateEMA prices slow_period ;;
    match fast, slow with
    | Some f, Some s =>
        let macd_value := f - s in
        let etf' :=
          {| macd := Some macd_value;
             ema_fast := Some f;
             ema_slow := Some s;
             signal_line := Some (macd_value * (1 # 10) + or_zero (signal_line etf) * (9 # 10));
             position := position etf;
             last_signal := last_signal etf;
             optimal_params := optimal_params etf;
             price_history := price_history etf;
             returns := returns etf |} in
        Ok {| etfs := <[symbol_str := etf']> (etfs self);
              max_position_size := max_position_size self;
              max_drawdown := max_drawdown self;
              drawdown := drawdown self;
              volatility_window := volatility_window self;
              min_history_for_optimization := min_history_for_optimization self |}
    | _, _ => Ok self
    end
  else Ok self.

Section Numeric.

(** [np.sqrt] on finite floats, uninterpreted. *)
Variable np_sqrt : Q -> Q.

Definition np_std (l : list Q) : Q := np_sqrt (pop_var l).

(** [CalculatePositionSize(self, symbol_str, signal)] *)
Definition CalculatePositionSize (self : algorithm) (symbol_str : string) (signal : Q)
  : result Q :=
  etf <-- etf_of self symbol_str ;;
  if (Z.of_nat (length (returns etf)) <? volatility_window self)%Z
  then Ok (max_position_size self)
  else
    let recent_returns := py_slice_from (- volatility_window self) (returns etf) in
    let volatility := np_std recent_returns * np_sqrt 252 in
    let base_vol := 15 # 100 in
    let vol_adjustment := py_min (base_vol / py_max volatility (5 # 100)) 2 in
    let position_size := max_position_size self * vol_adjustment in
    Ok (py_min position_size (max_position_size self)).

(** [ApplyRiskManagement(self, signals)]; the log line is left out.  Each
    pass of either loop writes the key it visits, so the outcome does not
    depend on the order in which the dictionary is walked. *)
Definition ApplyRiskManagement (self : algorithm) (signals : gmap string Q)
  : result (gmap string Q) :=
  if Qlt_le_dec (max_drawdown self) (drawdown self) then
    Ok (map_fold (fun symbol_str signal (filtered_signals : gmap string Q) =>
                    if Qlt_le_dec 0 signal
                    then <[symbol_str := 0]> filtered_signals
                    else <[symbol_str := signal]> filtered_signals)
                 ∅ signals)
  else
    map_fold (fun symbol_str signal (acc : result (gmap string Q)) =>
                filtered_signals <-- acc ;;
                if negb (Qeq_bool signal 0) then
                  position_size <-- CalculatePositionSize self symbol_str signal ;;
                  Ok (<[symbol_str := signal * position_size]> filtered_signals)
                else Ok (<[symbol_str := 0]> filtered_signals))
             (Ok ∅) signals.

(** The first loop of [CalculateStrategyReturns]: one pass for index [i],
    on the pair [(macd_values, signal_values)]. *)
Definition macd_pass (prices : list Q) (fast_period slow_period signal_period : Z)
    (acc : list Q * list Q) (i : Z) : result (list Q * list Q) :=
  let '(macd_values, signal_values) := acc in
  let price_window := py_slice (Z.max 0 (i - slow_period)) (i + 1) prices in
  fast <-- CalculateEMA price_window fast_period ;;
  slow <-- CalculateEMA price_window slow_period ;;
  match fast, slow with
  | Some f, Some s =>
      (* [if ema_fast and ema_slow]: a float 0.0 is false as well *)
      if negb (Qeq_bool f 0) && negb (Qeq_bool s 0) then
        let macd_values' := macd_values ++ [f - s] in
        if (signal_period <=? Z.of_nat (length macd_values'))%Z
        then Ok (macd_values',
                 signal_values ++ [np_mean (py_slice_from (- signal_period) macd_values')])
        else Ok (macd_values', signal_values)
      else Ok acc
  | _, _ => Ok acc
  end.

Fixpoint macd_loop (prices : list Q) (fast_period slow_period signal_period : Z)
    (acc : list Q * list Q) (idxs : list Z) : result (list Q * list Q) :=
  match idxs with
  | [] => Ok acc
  | i :: idxs' =>
      acc' <-- macd_pass prices fast_period slow_period signal_period acc i ;;
      macd_loop prices fast_period slow_period signal_period acc' idxs'
  end.

(** The second loop: one pass for index [i >= 1], on [positions]. *)
Definition position_pass (macd_values signal_values : list Q) (positions : list Q) (i : nat)
  : list Q :=
  let m := nth i macd_values 0 in
  let s := nth i signal_values 0 in
  let m' := nth (i - 1) macd_values 0 in
  let s' := nth (i - 1) signal_values 0 in
  if negb (Qle_bool m s) && Qle_bool m' s' then positions ++ [1]
  else if negb (Qle_bool s m) && Qle_bool s' m' then positions ++ [-1]
  else positions ++ [match last positions with
                     | Some p => p
                     | None => 0
                     end].

(** The third loop: one pass for index [i], on [returns]. *)
Definition return_pass (prices positions : list Q) (start_idx : Z) (returns : list Q) (i : nat)
  : result (list Q) :=
  let k := (start_idx + Z.of_nat i)%Z in
  if (k + 1 <? Z.of_nat (length prices))%Z then
    let p1 := nth (Z.to_nat (k + 1)) prices 0 in
    let p0 := nth (Z.to_nat k) prices 0 in
    if Qeq_bool p0 0 then Raise ZeroDivisionError
    else Ok (returns ++ [nth i positions 0 * (p1 / p0 - 1)])
  else Ok returns.

Fixpoint return_loop (prices positions : list Q) (start_idx : Z) (returns : list Q)
    (idxs : list nat) : result (list Q) :=
  match idxs with
  | [] => Ok returns
  | i :: idxs' =>
      returns' <-- return_pass prices positions start_idx returns i ;;
      return_loop prices positions start_idx returns' idxs'
  end.

(** [CalculateStrategyReturns(self, prices, fast_period, slow_period, signal_period)],
    for periods that keep every index non-negative ([0 <= slow_period],
    [0 <= slow_period + signal_period]), as the optimizer's bounds do. *)
Definition CalculateStrategyReturns (prices : list Q) (fast_period slow_period signal_period : Z)
  : result (list Q) :=
  if (Z.of_nat (length prices) <? slow_period + signal_period)%Z then Ok []
  else
    idxs <-- py_range slow_period (Z.of_nat (length prices)) 1 ;;
    values <-- macd_loop prices fast_period slow_period signal_period ([], []) idxs ;;
    let '(macd_values, signal_values) := values in
    let positions :=
      fold_left (position_pass macd_values signal_values)
                (seq 1 (length signal_values - 1)) [] in
    return_loop prices positions (slow_period + signal_period) [] (seq 0 (length positions)).

(** The closure [objective(params)] of [OptimizeETFParameters], over the
    [prices] it captures. *)
Definition objective (prices : list Q) (params : Q * Q * Q) : result Q :=
  let '(p0, p1, p2) := params in
  let fast := py_int p0 in
  let slow := py_int p1 in
  let signal := py_int p2 in
  if (slow <=? fast)%Z then Ok (-1000)        (* Invalid parameters *)
  else
    returns <-- CalculateStrategyReturns prices fast slow signal ;;
    if (length returns =? 0)%nat then Ok (-1000)
    else
      let avg_return := np_mean returns in
      let std_return := np_std returns in
      if Qeq_bool std_return 0 then Ok (-1000)
      else
        let sharpe_ratio := avg_return / std_return * np_sqrt 252 in
        Ok (- sharpe_ratio).

End Numeric.

End EnhancedETF.

(** ** QuantConnect_Simple_MACD_ETF.py *)

Module SimpleETF.

(** One entry of [self.etfs], without the built-in indicator objects.  The
    two [RollingWindow]s keep the newest entry at index 0. *)
Record etf_data := {
  position : Q;
  last_signal : Q;
  returns : list Q;
  prices : list Q
}.

Record algorithm := {
  etfs : gmap string etf_data;
  max_position_size : Q;
  max_drawdown : Q;
  drawdown : Q;
  volatility_window : Z
}.

Definition etf_of (self : algorithm) (symbol_str : string) : result etf_data :=
  match etfs self !! symbol_str with
  | Some etf => Ok etf
  | None => Raise KeyError
  end.

Section Numeric.

Variable np_sqrt : Q -> Q.

Definition np_std (l : list Q) : Q := np_sqrt (pop_var l).

(** [AdjustForVolatility(self, symbol_str, base_size)] *)
Definition AdjustForVolatility (self : algorithm) (symbol_str : string) (base_size : Q)
  : result Q :=
  etf <-- etf_of self symbol_str ;;
  let count := Z.of_nat (length (returns etf)) in
  if (count <? volatility_window self)%Z then Ok base_size
  else
    (* [returns[i] for i in range(min(window, Count))] *)
    let recent_returns := firstn (Z.to_nat (Z.min (volatility_window self) count)) (returns etf) in
    let volatility := np_std recent_returns * np_sqrt 252 in
    let base_vol := 15 # 100 in
    let vol_adjustment := py_min (base_vol / py_max volatility (5 # 100)) 2 in
    let adjusted_size := base_size * vol_adjustment in
    Ok (py_min adjusted_size (max_position_size self)).

(** [ApplyRiskManagement(self, signals)]; the log line is left out. *)
Definition ApplyRiskManagement (self : algorithm) (signals : gmap string Q)
  : result (gmap string Q) :=
  if Qlt_le_dec (max_drawdown self) (drawdown self) then
    Ok (map_fold (fun symbol_str signal (filtered_signals : gmap string Q) =>
                    if Qlt_le_dec 0 signal
                    then <[symbol_str := 0]> filtered_signals
                    else <[symbol_str := signal]> filtered_signals)
                 ∅ signals)
  else
    let total_signals :=
      map_fold (fun _ s (total : Q) => if negb (Qeq_bool s 0) then total + Qabs s else total)
               0 signals in
    if Qeq_bool total_signals 0 then
      Ok (map_fold (fun symbol_str _ (filtered_signals : gmap string Q) =>
                      <[symbol_str := 0]> filtered_signals)
                   ∅ signals)
    else
      map_fold (fun symbol_str signal (acc : result (gmap string Q)) =>
                  filtered_signals <-- acc ;;
                  if negb (Qeq_bool signal 0) then
                    let position_size := max_position_size self in
                    position_size <-- AdjustForVolatility self symbol_str position_size ;;
                    Ok (<[symbol_str := signal * position_size]> filtered_signals)
                  else Ok (<[symbol_str := 0]> filtered_signals))
               (Ok ∅) signals.

End Numeric.

End SimpleETF.

(** ** Statements used by the properties *)

(** Equality of floats up to [==] on the rational inside. *)
Definition feq (x y : fval) : Prop :=
  match x, y with
  | Fin a, Fin b => a == b
  | PInf, PInf | NInf, NInf | NaN, NaN => True
  | _, _ => False
  end.

(** The strategy return of one step as the specification words it:
    position[i-1] * marketReturn[i] - transactionCost * |position[i] - position[i-1]|,
    with marketReturn[i] = close[i] / close[i-1] - 1. *)
Definition lagged_return (pos_prev pos_now close_prev close_now cost : Q) : fval :=
  let market := fsub (fdiv (Fin close_now) (Fin close_prev)) (Fin 1) in
  fsub (fmul (Fin pos_prev) market)
       (fmul (Fin cost) (fabs (fsub (Fin pos_now) (Fin pos_prev)))).

(** The frame [s] with its [Close] column replaced. *)
Definition with_close (s : SingleAsset.signals_frame) (close : list Q) : SingleAsset.signals_frame :=
  {| SingleAsset.Close := close;
     SingleAsset.macd := SingleAsset.macd s;
     SingleAsset.signal := SingleAsset.signal s;
     SingleAsset.histogram := SingleAsset.histogram s;
     SingleAsset.signal_trigger := SingleAsset.signal_trigger s;
     SingleAsset.position := SingleAsset.position s |}.

(** ** Sample inputs *)

(** Three rows: flat on the first day, long from the second. *)
Definition sample_frame : SingleAsset.signals_frame :=
  {| SingleAsset.Close := [100; 110; 121];
     SingleAsset.macd := [0; 0; 0];
     SingleAsset.signal := [0; 0; 0];
     SingleAsset.histogram := [0; 0; 0];
     SingleAsset.signal_trigger := [0; 1; 0]%Z;
     SingleAsset.position := [0; 1; 1] |}.


(** Ten closes, fewer than the default slow period 26: three falling days,
    then a steady rise. *)
Definition short_series : list Q := [10; 9; 8; 7; 8; 9; 10; 11; 12; 13].


(** The signal line as the specification words it: the EMA with period
    [signal_period] over the MACD values, seeded with the first of them and
    then moved by [alpha = 2 / (signal_period + 1)]. *)
Definition spec_signal_update (signal_period : Z) (prev : option Q) (macd_value : Q) : Q :=
  match prev with
  | None => macd_value
  | Some s => EnhancedETF.ema_step (2 / (inject_Z signal_period + 1)) s macd_value
  end.

(** The weights [decay^(n-1); ...; decay; 1] that pandas' adjusted
    exponential average puts on [n] entries, oldest first. *)
Fixpoint decay_weights (decay : Q) (n : nat) : list Q :=
  match n with
  | O => []
  | S n' => map (Qmult decay) (decay_weights decay n') ++ [1]
  end.

(** [self] with the signal period of one ETF's parameters replaced. *)
Definition set_signal_period (self : EnhancedETF.algorithm) (symbol_str : string)
    (signal_period : Z) : EnhancedETF.algorithm :=
  {| EnhancedETF.etfs :=
       alter (fun etf =>
                {| EnhancedETF.macd := EnhancedETF.macd etf;
                   EnhancedETF.ema_fast := EnhancedETF.ema_fast etf;
                   EnhancedETF.ema_slow := EnhancedETF.ema_slow etf;
                   EnhancedETF.signal_line := EnhancedETF.signal_line etf;
                   EnhancedETF.position := EnhancedETF.position etf;
                   EnhancedETF.last_signal := EnhancedETF.last_signal etf;
                   EnhancedETF.optimal_params :=
                     (let '(fast, slow, _) := EnhancedETF.optimal_params etf in
                      (fast, slow, signal_period));
                   EnhancedETF.price_history := EnhancedETF.price_history etf;
                   EnhancedETF.returns := EnhancedETF.returns etf |})
             symbol_str (EnhancedETF.etfs self);
     EnhancedETF.max_position_size := EnhancedETF.max_position_size self;
     EnhancedETF.max_drawdown := EnhancedETF.max_drawdown self;
     EnhancedETF.drawdown := EnhancedETF.drawdown self;
     EnhancedETF.volatility_window := EnhancedETF.volatility_window self;
     EnhancedETF.min_history_for_optimization := EnhancedETF.min_history_for_optimization self |}.

(** The signal line of [symbol_str] after a call that returned. *)
Definition signal_line_after (r : result EnhancedETF.algorithm) (symbol_str : string)
  : option Q :=
  match r with
  | Ok self' => EnhancedETF.etfs self' !! symbol_str ≫= EnhancedETF.signal_line
  | Raise _ => None
  end.

(** One ETF with the default parameters, 26 closes rising from 100 to 125,
    and a signal line already at 1. *)
Definition spy_data : EnhancedETF.etf_data :=
  {| EnhancedETF.macd := Some 1;
     EnhancedETF.ema_fast := None;
     EnhancedETF.ema_slow := None;
     EnhancedETF.signal_line := Some 1;
     EnhancedETF.position := 0;
     EnhancedETF.last_signal := 0;
     EnhancedETF.optimal_params := (12, 26, 9)%Z;
     EnhancedETF.price_history :=
       map (fun k => inject_Z (100 + Z.of_nat k)) (seq 0 26);
     EnhancedETF.returns := [] |}.

Definition spy_algorithm : EnhancedETF.algorithm :=
  {| EnhancedETF.etfs := {[ "SPY"%string := spy_data ]};
     EnhancedETF.max_position_size := 125 # 1000;
     EnhancedETF.max_drawdown := 15 # 100;
     EnhancedETF.drawdown := 0;
     EnhancedETF.volatility_window := 20;
     EnhancedETF.min_history_for_optimization := 63 |}.


(** The sizing rule as the specification words it. *)
Definition spec_position_size (max_position_size asset_vol : Q) : Q :=
  let base_vol := 15 # 100 in
  let vol_floor := 5 # 100 in
  let cap_multiplier := 2 in
  Qmin max_position_size
       (max_position_size * Qmin (base_vol / Qmax asset_vol vol_floor) cap_multiplier).

(** Annualised volatility of a sample of daily returns, for a given square
    root: [np.std(sample) * np.sqrt(252)]. *)
Definition annual_volatility (np_sqrt : Q -> Q) (sample : list Q) : Q :=
  np_sqrt (pop_var sample) * np_sqrt 252.

(** What the drawdown breaker does to one signal. *)
Definition breaker (signal : Q) : Q := if Qlt_le_dec 0 signal then 0 else signal.

(** The outcome the breaker is claimed to have: every long signal zeroed,
    every other signal kept, no key added. *)
Definition longs_zeroed (signals filtered : gmap string Q) : Prop :=
  forall k : string,
    (forall s, signals !! k = Some s -> 0 < s -> filtered !! k = Some 0) /\
    (forall s, signals !! k = Some s -> s <= 0 -> filtered !! k = Some s) /\
    (signals !! k = None -> filtered !! k = None).

(** An algorithm in a drawdown of 20 percent against the limit of 15, with
    two recorded returns and a volatility window of 2. *)
Definition two_returns : list Q := [1 # 100; -1 # 100].

Definition spy_two_returns : EnhancedETF.etf_data :=
  {| EnhancedETF.macd := None; EnhancedETF.ema_fast := None;
     EnhancedETF.ema_slow := None; EnhancedETF.signal_line := None;
     EnhancedETF.position := 0; EnhancedETF.last_signal := 0;
     EnhancedETF.optimal_params := (12, 26, 9)%Z;
     EnhancedETF.price_history := [100; 101; 100];
     EnhancedETF.returns := two_returns |}.

Definition drawdown_enhanced : EnhancedETF.algorithm :=
  {| EnhancedETF.etfs := {[ "SPY"%string := spy_two_returns ]};
     EnhancedETF.max_position_size := 125 # 1000;
     EnhancedETF.max_drawdown := 15 # 100;
     EnhancedETF.drawdown := 20 # 100;
     EnhancedETF.volatility_window := 2;
     EnhancedETF.min_history_for_optimization := 63 |}.

Definition drawdown_simple : SimpleETF.algorithm :=
  {| SimpleETF.etfs :=
       {[ "SPY"%string :=
            {| SimpleETF.position := 0; SimpleETF.last_signal := 0;
               SimpleETF.returns := two_returns;
               SimpleETF.prices := [100; 101; 100] |} ]};
     SimpleETF.max_position_size := 125 # 1000;
     SimpleETF.max_drawdown := 15 # 100;
     SimpleETF.drawdown := 20 # 100;
     SimpleETF.volatility_window := 2 |}.

Definition mixed_signals : gmap string Q :=
  {[ "SPY"%string := 1; "QQQ"%string := -1; "XLK"%string := 0 ]}.


(** A frame with a single row, and the frame with none. *)
Definition single_row : SingleAsset.signals_frame :=
  {| SingleAsset.Close := [100];
     SingleAsset.macd := [0];
     SingleAsset.signal := [0];
     SingleAsset.histogram := [0];
     SingleAsset.signal_trigger := [0%Z];
     SingleAsset.position := [0] |}.

Definition no_rows : SingleAsset.signals_frame :=
  {| SingleAsset.Close := [];
     SingleAsset.macd := [];
     SingleAsset.signal := [];
     SingleAsset.histogram := [];
     SingleAsset.signal_trigger := [];
     SingleAsset.position := [] |}.

(** A candidate with the fast period above the slow one. *)
Definition crossed_periods : Q * Q * Q := (26, 12, 9).


(** ** Further sample inputs *)

(** Five closes at 100. *)
Definition flat_series : list Q := [100; 100; 100; 100; 100].

(** ** QuantConnect_Enhanced_MACD_Strategy.py: data feed, portfolio metrics, signals *)

(** [a < b] on floats, as a boolean. *)
Definition Qlt_bool (a b : Q) : bool := negb (Qle_bool b a).

(** [deque(maxlen=n).append(x)]: the oldest entries leave at the left. *)
Definition deque_append {A} (maxlen : nat) (x : A) (d : list A) : list A :=
  skipn (length (d ++ [x]) - maxlen) (d ++ [x]).

Module EnhancedETFRun.
Import EnhancedETF.

(** The lengths given to [deque(maxlen=252)] in [Initialize]. *)
Definition history_maxlen : nat := 252.

(** [self] with the entry of [symbol_str] replaced. *)
Definition with_etf (self : algorithm) (symbol_str : string) (etf : etf_data) : algorithm :=
  {| etfs := <[symbol_str := etf]> (etfs self);
     max_position_size := max_position_size self;
     max_drawdown := max_drawdown self;
     drawdown := drawdown self;
     volatility_window := volatility_window self;
     min_history_for_optimization := min_history_for_optimization self |}.

(** The body of the loop of [OnData] for one ETF whose bar is in [data]:
    append the close, append the daily return once there are two closes
    ([price / price_history[-2] - 1], Python division), update the
    indicators. *)
Definition OnData_symbol (self : algorithm) (symbol_str : string) (price : Q)
  : result algorithm :=
  etf <-- etf_of self symbol_str ;;
  let price_history' := deque_append history_maxlen price (price_history etf) in
  returns' <--
    (if (1 <? length price_history')%nat then
       let previous := nth (length price_history' - 2) price_history' 0 in
       if Qeq_bool previous 0 then Raise ZeroDivisionError
       else Ok (deque_append history_maxlen (price / previous - 1) (returns etf))
     else Ok (returns etf)) ;;
  let etf' :=
    {| macd := macd etf;
       ema_fast := ema_fast etf;
       ema_slow := ema_slow etf;
       signal_line := signal_line etf;
       position := position etf;
       last_signal := last_signal etf;
       optimal_params := optimal_params etf;
       price_history := price_history';
       returns := returns' |} in
  UpdateMACDIndicators (with_etf self symbol_str etf') symbol_str price.

(** The attributes written by [UpdatePortfolioMetrics];
    [previous_portfolio_value] is absent until the first call. *)
Record portfolio_metrics := {
  peak_portfolio_value : Q;
  portfolio_drawdown : Q;
  previous_portfolio_value : option Q;
  daily_returns : list Q
}.

(** [UpdatePortfolioMetrics(self)], the portfolio value read from the
    platform being [current_value]. *)
Definition UpdatePortfolioMetrics (pm : portfolio_metrics) (current_value : Q)
  : result portfolio_metrics :=
  let peak := if Qlt_le_dec (peak_portfolio_value pm) current_value
              then current_value else peak_portfolio_value pm in
  if Qeq_bool peak 0 then Raise ZeroDivisionError
  else
    let drawdown := (peak - current_value) / peak in
    daily_returns' <--
      (match previous_portfolio_value pm with
       | Some previous =>
           if Qeq_bool previous 0 then Raise ZeroDivisionError
           else Ok (deque_append history_maxlen (current_value / previous - 1)
                                 (daily_returns pm))
       | None => Ok (daily_returns pm)
       end) ;;
    Ok {| peak_portfolio_value := peak;
          portfolio_drawdown := drawdown;
          previous_portfolio_value := Some current_value;
          daily_returns := daily_returns' |}.

Section Numeric.

Variable np_sqrt : Q -> Q.

(** [ApplyAdditionalFilters(self, symbol_str, signal)] *)
Definition ApplyAdditionalFilters (self : algorithm) (symbol_str : string) (signal : Q)
  : result Q :=
  etf <-- etf_of self symbol_str ;;
  let signal1 :=
    if (volatility_window self <=? Z.of_nat (length (returns etf)))%Z then
      let recent_returns := py_slice_from (- volatility_window self) (returns etf) in
      let volatility := np_std np_sqrt recent_returns * np_sqrt 252 in
      if Qlt_le_dec (3 # 10) volatility then signal * (1 # 2) else signal
    else signal in
  if (20 <=? length (price_history etf))%nat then
    let current_price := nth (length (price_history etf) - 1) (price_history etf) 0 in
    let ma_20 := np_mean (py_slice_from (-20) (price_history etf)) in
    if Qlt_bool 0 signal1 && Qlt_bool current_price (ma_20 * (98 # 100)) then Ok 0
    else if Qlt_bool signal1 0 && Qlt_bool (ma_20 * (102 # 100)) current_price then Ok 0
    else Ok signal1
  else Ok signal1.

(** [GenerateSignal(self, symbol_str)]: the signal, and [self] with
    [last_signal] written. *)
Definition GenerateSignal (self : algorithm) (symbol_str : string) : result (Q * algorithm) :=
  etf <-- etf_of self symbol_str ;;
  match macd etf, signal_line etf with
  | Some macd_value, Some signal_value =>
      let signal :=
        if Qlt_bool signal_value macd_value && Qle_bool (last_signal etf) 0 then 1
        else if Qlt_bool macd_value signal_value && Qle_bool 0 (last_signal etf) then -1
        else position etf in
      signal' <-- ApplyAdditionalFilters self symbol_str signal ;;
      let etf' :=
        {| macd := macd etf;
           ema_fast := ema_fast etf;
           ema_slow := ema_slow etf;
           signal_line := signal_line etf;
           position := position etf;
           last_signal := signal';
           optimal_params := optimal_params etf;
           price_history := price_history etf;
           returns := returns etf |} in
      Ok (signal', with_etf self symbol_str etf')
  | _, _ => Ok (0, self)
  end.

End Numeric.

End EnhancedETFRun.

(** ** QuantConnect_Simple_MACD_ETF.py: portfolio metrics and signals *)

Module SimpleETFRun.
Import SimpleETF.

(** [UpdatePortfolioMetrics(self)] on the pair
    [(peak_portfolio_value, drawdown)]. *)
Definition UpdatePortfolioMetrics (peak_portfolio_value current_value : Q) : result (Q * Q) :=
  let peak := if Qlt_le_dec peak_portfolio_value current_value
              then current_value else peak_portfolio_value in
  if Qeq_bool peak 0 then Raise ZeroDivisionError
  else Ok (peak, (peak - current_value) / peak).

(** The readings [GenerateSignal] takes from the platform's indicator
    objects and from [self.Securities]. *)
Record readings := {
  indicators_ready : bool;
  macd_line : Q;
  signal_line : Q;
  histogram : Q;
  sma_20 : Q;
  rsi_value : Q;
  current_price : Q
}.

Section Numeric.

Variable np_sqrt : Q -> Q.

(** [ApplyFilters(self, symbol_str, signal, current_price)] *)
Definition ApplyFilters (self : algorithm) (symbol_str : string) (r : readings) (signal : Q)
  : result Q :=
  etf <-- etf_of self symbol_str ;;
  let signal1 :=
    if Qlt_bool 0 signal && Qlt_bool (current_price r) (sma_20 r * (98 # 100)) then 0
    else if Qlt_bool signal 0 && Qlt_bool (sma_20 r * (102 # 100)) (current_price r) then 0
    else signal in
  let signal2 :=
    if Qlt_bool 0 signal1 && Qlt_bool 70 (rsi_value r) then 0
    else if Qlt_bool signal1 0 && Qlt_bool (rsi_value r) 30 then 0
    else signal1 in
  let count := Z.of_nat (length (returns etf)) in
  if (volatility_window self <=? count)%Z then
    let recent_returns :=
      firstn (Z.to_nat (Z.min (volatility_window self) count)) (returns etf) in
    let volatility := np_std np_sqrt recent_returns * np_sqrt 252 in
    if Qlt_le_dec (35 # 100) volatility then Ok (signal2 * (1 # 2)) else Ok signal2
  else Ok signal2.

(** [GenerateSignal(self, symbol_str)] *)
Definition GenerateSignal (self : algorithm) (symbol_str : string) (r : readings) : result Q :=
  _ <-- etf_of self symbol_str ;;
  if negb (indicators_ready r) then Ok 0
  else
    let signal :=
      if Qlt_bool (signal_line r) (macd_line r) && Qlt_bool 0 (histogram r) then 1
      else if Qlt_bool (macd_line r) (signal_line r) && Qlt_bool (histogram r) 0 then -1
      else 0 in
    ApplyFilters self symbol_str r signal.

End Numeric.

End SimpleETFRun.

(** ** Statements used by the further properties *)

(** A filtered signal is the signal, half of it, or zero. *)
Definition dampened (signal v : Q) : Prop :=
  v = signal \/ v = signal * (1 # 2) \/ v = 0.

(** The weight the sizing loop of [ApplyRiskManagement] writes for a signal,
    given the size computed for its symbol: zero for a zero signal, the
    signal times the size otherwise. *)
Definition sized_weight (size : result Q) (signal : Q) : option Q :=
  if negb (Qeq_bool signal 0) then
    match size with
    | Ok sz => Some (signal * sz)
    | Raise _ => None
    end
  else Some 0.

(** What the further properties say about a sized weight [w] of a signal
    [s]: flat for a flat signal, with the sign of the signal otherwise, and
    never more than the signal's size times the largest position. *)
Definition weight_within (max_size s w : Q) : Prop :=
  (s == 0 -> w = 0) /\ (0 <= s -> 0 <= w) /\ (s <= 0 -> w <= 0) /\
  Qabs w <= Qabs s * max_size.

(** ** The hand-written EMA in binary64 *)

Module EnhancedETFFloat.

(** Python floats are IEEE binary64: 53 bits of precision, exponents below
    1024, every operation rounded to nearest, ties to even. *)
Definition float_add : spec_float -> spec_float -> spec_float := SFadd 53 1024.
Definition float_sub : spec_float -> spec_float -> spec_float := SFsub 53 1024.
Definition float_mul : spec_float -> spec_float -> spec_float := SFmul 53 1024.
Definition float_div : spec_float -> spec_float -> spec_float := SFdiv 53 1024.

(** [float(n)] for an integer [n]. *)
Definition float_of_int (n : Z) : spec_float := binary_normalize 53 1024 n 0 false.

(** An integer converts to a float when its rounded value is below 2^1024,
    that is when its magnitude is below 2^1024 - 2^970; beyond that the
    conversion raises [OverflowError]. *)
Definition float_overflow_bound : Z := 2 ^ 1024 - 2 ^ 970.

(** [multiplier = 2.0 / (period + 1.0)] *)
Definition multiplier_of (period : Z) : spec_float :=
  float_div (float_of_int 2) (float_add (float_of_int period) (float_of_int 1)).

(** [(price * multiplier) + (ema * (1 - multiplier))] *)
Definition ema_step (multiplier : spec_float) (ema price : spec_float) : spec_float :=
  float_add (float_mul price multiplier)
            (float_mul ema (float_sub (float_of_int 1) multiplier)).

(** [CalculateEMA(self, prices, period)] with the arithmetic of the program.
    After the length test, [period + 1.0] converts [period] to a float, which
    raises past the float range; the division raises when [period + 1.0] is
    [0.0], that is for [period = -1]; [prices[0]] raises on an empty list;
    the loop runs over [prices[1:]]. *)
Definition CalculateEMA (prices : list spec_float) (period : Z)
  : result (option spec_float) :=
  if (Z.of_nat (length prices) <? period)%Z then Ok None
  else if (float_overflow_bound <=? Z.abs period)%Z then Raise OverflowError
  else if (period =? -1)%Z then Raise ZeroDivisionError
  else
    let multiplier := multiplier_of period in
    match prices with
    | [] => Raise IndexError
    | p0 :: rest => Ok (Some (fold_left (ema_step multiplier) rest p0))
    end.

End EnhancedETFFloat.

(** The floats nearest to 99.99 and to 412.55, the values of the Python
    literals. *)
Definition float_99_99 : spec_float := S754_finite false 0x18ff5c28f5c28f (-46).
Definition float_412_55 : spec_float := S754_finite false 0x19c8cccccccccd (-44).

(** An ETF with the MACD above its signal line and no signal yet, closes
    rising from 100 to 125, in an algorithm outside a drawdown. *)
Definition bullish_data : EnhancedETF.etf_data :=
  {| EnhancedETF.macd := Some 2;
     EnhancedETF.ema_fast := Some 110;
     EnhancedETF.ema_slow := Some 105;
     EnhancedETF.signal_line := Some 1;
     EnhancedETF.position := 0;
     EnhancedETF.last_signal := 0;
     EnhancedETF.optimal_params := (12, 26, 9)%Z;
     EnhancedETF.price_history :=
       map (fun k => inject_Z (100 + Z.of_nat k)) (seq 0 26);
     EnhancedETF.returns := [] |}.

Definition bullish_algorithm : EnhancedETF.algorithm :=
  {| EnhancedETF.etfs := {[ "SPY"%string := bullish_data ]};
     EnhancedETF.max_position_size := 125 # 1000;
     EnhancedETF.max_drawdown := 15 # 100;
     EnhancedETF.drawdown := 0;
     EnhancedETF.volatility_window := 20;
     EnhancedETF.min_history_for_optimization := 63 |}.

(** * Properties *)

(** ** The hand-written EMA *)

Section EMA.
Import EnhancedETF.


Lemma multiplier_range (period : Z) :
  (1 <= period)%Z ->
  0 < 2 / (inject_Z period + 1) /\ 2 / (inject_Z period + 1) <= 1.
Proof.
  intros Hp.
  assert (H2 : 2 <= inject_Z period + 1).
  { assert (inject_Z 1 <= inject_Z period) by (rewrite <- Zle_Qle; lia).
    change (inject_Z 1) with 1 in H. lra. }
  split.
  - apply Qlt_shift_div_l; lra.
  - apply Qle_shift_div_r; lra.
Qed.

Lemma ema_step_between (m lo hi ema price : Q) :
  0 <= m -> m <= 1 -> lo <= ema <= hi -> lo <= price <= hi ->
  lo <= ema_step m ema price <= hi.
Proof.
  intros H0 H1 [He1 He2] [Hp1 Hp2]. unfold ema_step. split; nra.
Qed.

Lemma ema_fold_between (m lo hi : Q) (rest : list Q) :
  0 <= m -> m <= 1 ->
  forall ema, lo <= ema <= hi -> Forall (fun p => lo <= p <= hi) rest ->
  lo <= fold_left (ema_step m) rest ema <= hi.
Proof.
  intros H0 H1. induction rest as [|p rest IH]; intros ema He Hall; simpl.
  - exact He.
  - inversion Hall as [|? ? Hp Hrest]; subst.
    apply IH; [apply ema_step_between|]; assumption.
Qed.

Lemma ema_fold_const (m c : Q) (rest : list Q) :
  forall ema, ema == c -> Forall (fun p => p == c) rest ->
  fold_left (ema_step m) rest ema == c.
Proof.
  induction rest as [|p rest IH]; intros ema He Hall; simpl.
  - exact He.
  - inversion Hall as [|? ? Hp Hrest]; subst.
    apply IH; [|assumption]. unfold ema_step. rewrite He, Hp. ring.
Qed.

Lemma Qdot_app (ws1 ws2 xs1 xs2 : list Q) :
  length ws1 = length xs1 ->
  Qdot (ws1 ++ ws2) (xs1 ++ xs2) == Qdot ws1 xs1 + Qdot ws2 xs2.
Proof.
  revert xs1. induction ws1 as [|w ws1 IH]; intros [|x xs1] Hlen; simpl in *; try discriminate.
  - ring.
  - rewrite IH by congruence. ring.
Qed.

Lemma Qdot_scale (k : Q) (ws xs : list Q) :
  Qdot (map (Qmult k) ws) xs == k * Qdot ws xs.
Proof.
  revert xs. induction ws as [|w ws IH]; intros [|x xs]; simpl; try ring.
  rewrite IH. ring.
Qed.

Lemma Qsum_app (l1 l2 : list Q) : Qsum (l1 ++ l2) == Qsum l1 + Qsum l2.
Proof.
  induction l1 as [|x l1 IH]; simpl; [ring|]. rewrite IH. ring.
Qed.

Lemma Qsum_scale (k : Q) (l : list Q) : Qsum (map (Qmult k) l) == k * Qsum l.
Proof.
  induction l as [|x l IH]; simpl; [ring|]. rewrite IH. ring.
Qed.

Lemma ema_fold_convex (m : Q) (rest : list Q) :
  0 <= m -> m <= 1 ->
  forall (seen ws : list Q) (ema : Q),
    length ws = length seen -> convex_weights ws -> ema == Qdot ws seen ->
    exists ws', length ws' = length (seen ++ rest) /\ convex_weights ws' /\
                fold_left (ema_step m) rest ema == Qdot ws' (seen ++ rest).
Proof.
  intros H0 H1. induction rest as [|p rest IH]; intros seen ws ema Hlen Hcv He; simpl.
  - exists ws. rewrite app_nil_r. auto.
  - destruct Hcv as [Hpos Hsum].
    destruct (IH (seen ++ [p]) (map (Qmult (1 - m)) ws ++ [m]) (ema_step m ema p))
      as (ws' & Hl' & Hcv' & He').
    + rewrite !length_app, length_map. simpl. lia.
    + split.
      * apply Forall_app. split; [|repeat constructor; assumption].
        apply Forall_map. eapply Forall_impl; [exact Hpos|].
        intros w Hw. cbv beta in Hw. nra.
      * rewrite Qsum_app, Qsum_scale, Hsum. simpl. ring.
    + rewrite Qdot_app by (rewrite length_map; exact Hlen).
      rewrite Qdot_scale. simpl. unfold ema_step. rewrite He. ring.
    + exists ws'. rewrite <- app_assoc in Hl', He'. simpl in Hl', He'. auto.
Qed.

Lemma Qlist_bounds (l : list Q) :
  Forall (fun p => Qlist_min l <= p <= Qlist_max l) l.
Proof.
  destruct l as [|x xs]; [constructor|].
  assert (Hmin : forall ys a, fold_left Qmin ys a <= a /\ Forall (fun p => fold_left Qmin ys a <= p) ys).
  { induction ys as [|y ys IH]; intros a; simpl.
    - split; [lra|constructor].
    - destruct (IH (Qmin a y)) as [Ha Hall]. split.
      + pose proof (Q.le_min_l a y). lra.
      + constructor; [|exact Hall]. pose proof (Q.le_min_r a y). lra. }
  assert (Hmax : forall ys a, a <= fold_left Qmax ys a /\ Forall (fun p => p <= fold_left Qmax ys a) ys).
  { induction ys as [|y ys IH]; intros a; simpl.
    - split; [lra|constructor].
    - destruct (IH (Qmax a y)) as [Ha Hall]. split.
      + pose proof (Q.le_max_l a y). lra.
      + constructor; [|exact Hall]. pose proof (Q.le_max_r a y). lra. }
  destruct (Hmin xs x) as [Hm1 Hm2]. destruct (Hmax xs x) as [HM1 HM2].
  simpl. constructor; [split; assumption|].
  rewrite Forall_forall in *. intros p Hp. split; auto.
Qed.

(** The recursion in exact arithmetic.  [CalculateEMA prices period] over the
    rationals is [None] exactly when the list has fewer than [period]
    elements.  Otherwise, for [period >= 1] (the list is then non-empty), it
    is a convex combination of the prices: there are non-negative weights
    summing to one that give it; it lies between the least and the greatest
    price, and on a constant list it is that constant. *)
Theorem CalculateEMA_none_iff_convex (prices : list Q) (period : Z) :
  (CalculateEMA prices period = Ok None <-> (Z.of_nat (length prices) < period)%Z) /\
  ((1 <= period)%Z -> (period <= Z.of_nat (length prices))%Z ->
   exists (e : Q) (ws : list Q),
     CalculateEMA prices period = Ok (Some e) /\
     length ws = length prices /\ convex_weights ws /\ e == Qdot ws prices /\
     Qlist_min prices <= e <= Qlist_max prices /\
     (forall c, Forall (fun p => p == c) prices -> e == c)).
Proof.
  split.
  - unfold CalculateEMA. destruct (Z.ltb_spec (Z.of_nat (length prices)) period) as [Hlt|Hge].
    + split; [intros _; exact Hlt | reflexivity].
    + split; [|lia]. destruct (period =? -1)%Z; [discriminate|].
      destruct prices; discriminate.
  - intros Hp Hlen. unfold CalculateEMA.
    destruct (Z.ltb_spec (Z.of_nat (length prices)) period) as [Hlt|_]; [lia|].
    destruct (Z.eqb_spec period (-1)) as [->|_]; [lia|].
    destruct prices as [|p0 rest]; [simpl in Hlen; lia|].
    destruct (multiplier_range period Hp) as [Hm0 Hm1].
    set (m := 2 / (inject_Z period + 1)) in *.
    destruct (ema_fold_convex m rest ltac:(lra) Hm1 [p0] [1] p0) as (ws & Hl & Hcv & He).
    + reflexivity.
    + split; [repeat constructor; lra | simpl; ring].
    + simpl. ring.
    + exists (fold_left (ema_step m) rest p0), ws.
      split; [reflexivity|]. split; [exact Hl|]. split; [exact Hcv|]. split; [exact He|].
      pose proof (Qlist_bounds (p0 :: rest)) as Hb.
      split.
      * inversion Hb; subst. apply ema_fold_between; try assumption; lra.
      * intros c Hc. inversion Hc; subst. apply ema_fold_const; assumption.
Qed.

Lemma CalculateEMA_none_iff_convex_witness :
  exists e : Q, CalculateEMA [100; 104; 102] 2 = Ok (Some e) /\ 100 <= e <= 104.
Proof.
  destruct (proj2 (CalculateEMA_none_iff_convex [100; 104; 102] 2))
    as (e & ws & He & _ & _ & _ & Hb & _); [lia | simpl; lia |].
  exists e. split; [exact He|]. exact Hb.
Defined.

End EMA.

Section SingleAssetReturns.
Import SingleAsset.

Lemma lookup_map {A B} (f : A -> B) (l : list A) (i : nat) :
  map f l !! i = f <$> (l !! i).
Proof.
  revert i. induction l as [|x l IH]; intros [|i]; simpl; auto.
Qed.

Lemma lookup_removelast {A} (l : list A) (i : nat) :
  (S i < length l)%nat -> removelast l !! i = l !! i.
Proof.
  revert i. induction l as [|x l IH]; intros i Hi; simpl in *; [lia|].
  destruct l as [|y l]; [simpl in Hi; lia|].
  destruct i as [|i]; [reflexivity|]. simpl. apply IH. simpl in *. lia.
Qed.

Lemma lookup_shift1_0 (l : list fval) : l <> [] -> shift1 l !! 0%nat = Some NaN.
Proof. destruct l; [congruence|reflexivity]. Qed.

Lemma lookup_shift1_S (l : list fval) (i : nat) :
  (S i < length l)%nat -> shift1 l !! S i = l !! i.
Proof.
  intros Hi. destruct l as [|x l]; [simpl in Hi; lia|].
  unfold shift1. change ((NaN :: removelast (x :: l)) !! S i) with (removelast (x :: l) !! i).
  apply lookup_removelast. exact Hi.
Qed.


Lemma feq_refl (x : fval) : feq x x.
Proof. destruct x; simpl; auto. reflexivity. Qed.

Lemma fmul_comm (x y : fval) : feq (fmul x y) (fmul y x).
Proof.
  destruct x, y; simpl; auto; try apply feq_refl. ring.
Qed.

Lemma fsub_feq_r (a b b' : fval) : feq b b' -> feq (fsub a b) (fsub a b').
Proof.
  destruct a, b, b'; simpl; intros H; auto; try contradiction.
  rewrite H. reflexivity.
Qed.

Lemma strategy_return_lookup (s : signals_frame) (cost : Q) (i : nat)
    (p0 p1 c0 c1 : Q) :
  position s !! i = Some p0 -> position s !! S i = Some p1 ->
  Close s !! i = Some c0 -> Close s !! S i = Some c1 ->
  strategy_return (calculate_returns s cost) !! S i
  = Some (fsub (fmul (Fin p0) (fsub (fdiv (Fin c1) (Fin c0)) (Fin 1)))
               (fmul (fabs (fsub (Fin p1) (Fin p0))) (Fin cost))).
Proof.
  intros Hp0 Hp1 Hc0 Hc1.
  assert (Hlp : (S i < length (map Fin (position s)))%nat).
  { rewrite length_map. apply lookup_lt_Some in Hp1. exact Hp1. }
  assert (Hlc : (S i < length (map Fin (Close s)))%nat).
  { rewrite length_map. apply lookup_lt_Some in Hc1. exact Hc1. }
  unfold calculate_returns, pct_change, diff; simpl.
  rewrite !lookup_zip_with, !lookup_map, !lookup_zip_with.
  rewrite !lookup_shift1_S by assumption.
  rewrite !lookup_map, Hp0, Hp1, Hc0, Hc1. reflexivity.
Qed.

(** C2.  In the frame returned by [calculate_returns], the strategy return
    of step [i + 1] is position[i] * marketReturn[i+1] minus the transaction
    cost times |position[i+1] - position[i]|: the position is the one of the
    step before.  Replacing the price of any later step leaves that return
    as it is. *)
Theorem calculate_returns_lagged_no_lookahead (s : signals_frame) (cost : Q) (i : nat)
    (p0 p1 c0 c1 : Q) :
  position s !! i = Some p0 -> position s !! S i = Some p1 ->
  Close s !! i = Some c0 -> Close s !! S i = Some c1 ->
  (exists r, strategy_return (calculate_returns s cost) !! S i = Some r /\
             feq r (lagged_return p0 p1 c0 c1 cost)) /\
  (forall (j : nat) (x : Q), (S i < j)%nat ->
     strategy_return (calculate_returns (with_close s (<[j := x]> (Close s))) cost) !! S i
     = strategy_return (calculate_returns s cost) !! S i).
Proof.
  intros Hp0 Hp1 Hc0 Hc1. split.
  - eexists. split; [apply strategy_return_lookup; eassumption|].
    unfold lagged_return. apply fsub_feq_r, fmul_comm.
  - intros j x Hj.
    rewrite (strategy_return_lookup s cost i p0 p1 c0 c1) by assumption.
    apply strategy_return_lookup; simpl; try assumption.
    + rewrite list_lookup_insert_ne by lia. exact Hc0.
    + rewrite list_lookup_insert_ne by lia. exact Hc1.
Qed.

Lemma calculate_returns_lagged_no_lookahead_witness :
  strategy_return (calculate_returns (with_close sample_frame (<[2%nat := 500]> (Close sample_frame)))
                                     default_transaction_cost) !! 1%nat
  = strategy_return (calculate_returns sample_frame default_transaction_cost) !! 1%nat.
Proof.
  apply (proj2 (calculate_returns_lagged_no_lookahead sample_frame default_transaction_cost
                  0 0 1 100 110 eq_refl eq_refl eq_refl eq_refl)).
  lia.
Defined.

End SingleAssetReturns.

(** ** The pandas indicator and the signal generator *)

Section SignalGenerator.
Import SingleAsset.

Lemma length_ewm_from (decay num den : Q) (xs : list Q) :
  length (ewm_from decay num den xs) = length xs.
Proof.
  revert num den. induction xs as [|x xs IH]; intros num den; simpl; [reflexivity|].
  now rewrite IH.
Qed.

Lemma ewm_mean_ok (span : Z) (xs : list Q) :
  (1 <= span)%Z -> ewm_mean span xs = Ok (ewm_from (1 - ewm_alpha span) 0 0 xs).
Proof.
  intros Hs. unfold ewm_mean. destruct (Z.ltb_spec span 1); [lia|reflexivity].
Qed.

Lemma ewm_mean_length (span : Z) (xs ys : list Q) :
  ewm_mean span xs = Ok ys -> length ys = length xs.
Proof.
  unfold ewm_mean. destruct (span <? 1)%Z; [discriminate|].
  intros [= <-]. apply length_ewm_from.
Qed.

Lemma clip_bounded (l : list Z) :
  Forall (fun z => (-1 <= z <= 1)%Z) (clip (-1) 1 l).
Proof.
  unfold clip. apply Forall_map, Forall_forall. intros z _. simpl.
  destruct (Z.ltb_spec z (-1)); [lia|]. destruct (Z.ltb_spec 1 z); lia.
Qed.

Lemma inject_Z_bounded (l : list Z) :
  Forall (fun z => (-1 <= z <= 1)%Z) l ->
  Forall (fun p => -1 <= p <= 1) (map inject_Z l).
Proof.
  intros H. apply Forall_map. eapply Forall_impl; [exact H|].
  intros z [Hlo Hhi]. simpl. split.
  - change (-1) with (inject_Z (-1)). rewrite <- Zle_Qle. exact Hlo.
  - change 1 with (inject_Z 1). rewrite <- Zle_Qle. exact Hhi.
Qed.

Lemma length_triggers (macd signal : list Q) :
  length (triggers macd signal) = length macd.
Proof. unfold triggers. now rewrite length_map, length_seq. Qed.

Lemma length_cumsum_from (acc : Z) (l : list Z) : length (cumsum_from acc l) = length l.
Proof.
  revert acc. induction l as [|x l IH]; intros acc; simpl; [reflexivity|]. now rewrite IH.
Qed.

(** What [generate_signals] returns when it returns. *)
Lemma generate_signals_inv (data : list Q) (fast slow sp : Z) (s : signals_frame) :
  generate_signals data fast slow sp = Ok s ->
  exists ema_fast ema_slow,
    ewm_mean fast data = Ok ema_fast /\ ewm_mean slow data = Ok ema_slow /\
    macd s = zip_with Qminus ema_fast ema_slow /\
    ewm_mean sp (macd s) = Ok (signal s) /\
    histogram s = zip_with Qminus (macd s) (signal s) /\
    Close s = data /\
    signal_trigger s = triggers (macd s) (signal s) /\
    position s = map inject_Z (clip (-1) 1 (cumsum (signal_trigger s))).
Proof.
  unfold generate_signals, calculate_macd.
  destruct (ewm_mean fast data) as [ef|] eqn:Hf; simpl; [|discriminate].
  destruct (ewm_mean slow data) as [es|] eqn:Hs; simpl; [|discriminate].
  destruct (ewm_mean sp (zip_with Qminus ef es)) as [sg|] eqn:Hg; simpl; [|discriminate].
  intros [= <-]. simpl. exists ef, es. repeat split; auto.
Qed.

Lemma generate_signals_total (data : list Q) (fast slow sp : Z) :
  (1 <= fast)%Z -> (1 <= slow)%Z -> (1 <= sp)%Z ->
  exists s, generate_signals data fast slow sp = Ok s.
Proof.
  intros Hf Hs Hg. unfold generate_signals, calculate_macd.
  rewrite !ewm_mean_ok by assumption. simpl.
  rewrite ewm_mean_ok by assumption. simpl. eexists. reflexivity.
Qed.

Lemma generate_signals_lengths (data : list Q) (fast slow sp : Z) (s : signals_frame) :
  generate_signals data fast slow sp = Ok s ->
  length (macd s) = length data /\ length (signal s) = length data /\
  length (histogram s) = length data /\ length (position s) = length data.
Proof.
  intros H. destruct (generate_signals_inv _ _ _ _ _ H)
    as (ef & es & Hf & Hs & Hm & Hg & Hh & _ & Ht & Hp).
  apply ewm_mean_length in Hf, Hs, Hg.
  assert (Hlm : length (macd s) = length data).
  { rewrite Hm, length_zip_with. lia. }
  repeat split.
  - exact Hlm.
  - lia.
  - rewrite Hh, length_zip_with. lia.
  - rewrite Hp, length_map. unfold clip, cumsum.
    rewrite length_map, length_cumsum_from, Ht, length_triggers. exact Hlm.
Qed.

(** C5.  The cumulative-clip policy keeps every position within [-1, +1]:
    for any trigger sequence the clipped running sum is within the bounds;
    the position column of [generate_signals] is that clipped running sum of
    its trigger column, whatever the input series; and for periods of at least
    one [generate_signals] does return a frame, one position per input row. *)
Theorem generate_signals_position_clipped :
  (forall trig : list Z, Forall (fun z => (-1 <= z <= 1)%Z) (clip (-1) 1 (cumsum trig))) /\
  (forall (data : list Q) (fast slow sp : Z) (s : signals_frame),
     generate_signals data fast slow sp = Ok s ->
     position s = map inject_Z (clip (-1) 1 (cumsum (signal_trigger s))) /\
     Forall (fun p => -1 <= p <= 1) (position s)) /\
  (forall (data : list Q) (fast slow sp : Z),
     (1 <= fast)%Z -> (1 <= slow)%Z -> (1 <= sp)%Z ->
     exists s, generate_signals data fast slow sp = Ok s /\
               length (position s) = length data).
Proof.
  split; [|split].
  - intros trig. apply clip_bounded.
  - intros data fast slow sp s H.
    destruct (generate_signals_inv _ _ _ _ _ H) as (_ & _ & _ & _ & _ & _ & _ & _ & _ & Hp).
    split; [exact Hp|]. rewrite Hp. apply inject_Z_bounded, clip_bounded.
  - intros data fast slow sp Hf Hs Hg.
    destruct (generate_signals_total data fast slow sp Hf Hs Hg) as [s H].
    exists s. split; [exact H|]. apply (generate_signals_lengths _ _ _ _ _ H).
Qed.

Lemma generate_signals_position_clipped_witness :
  exists s, generate_signals short_series 12 26 9 = Ok s /\
            Forall (fun p => -1 <= p <= 1) (position s).
Proof.
  destruct (proj2 (proj2 generate_signals_position_clipped) short_series 12%Z 26%Z 9%Z)
    as [s [H _]]; [lia | lia | lia |].
  exists s. split; [exact H|].
  apply (proj1 (proj2 generate_signals_position_clipped) _ _ _ _ _ H).
Defined.

(** C3, as claimed, fails: on ten closes with the slow period 26 the
    indicator has a number at every row, a non-zero one at the second, and
    the position goes short there. *)
Lemma short_series_not_flat :
  (Z.of_nat (length short_series) < 26)%Z /\
  exists s, generate_signals short_series 12 26 9 = Ok s /\
            length (macd s) = length short_series /\
            (exists m, macd s !! 1%nat = Some m /\ ~ m == 0) /\
            ~ Forall (fun p => p == 0) (position s).
Proof.
  split; [simpl; lia|].
  eexists. split; [vm_compute; reflexivity|]. split; [reflexivity|]. split.
  - eexists. split; [reflexivity|]. intros H. vm_compute in H. discriminate.
  - intros H. inversion H as [|? ? _ H1]; subst. inversion H1 as [|? ? H2 _]; subst.
    vm_compute in H2. discriminate.
Qed.

(** C3, amended.  For every price series, also one shorter than the slow
    period, and periods of at least one, [generate_signals] returns a frame
    whose macd, signal, histogram and position columns have one number per
    input row: no row is marked as not ready.  At the first row the three
    indicator values are zero and the position is flat; later rows need not
    be flat. *)
Theorem calculate_macd_numeric_from_first_row (data : list Q) (fast slow sp : Z) :
  (1 <= fast)%Z -> (1 <= slow)%Z -> (1 <= sp)%Z ->
  exists s, generate_signals data fast slow sp = Ok s /\
    length (macd s) = length data /\ length (signal s) = length data /\
    length (histogram s) = length data /\ length (position s) = length data /\
    (data <> [] ->
     exists m0 s0 h0,
       macd s !! 0%nat = Some m0 /\ signal s !! 0%nat = Some s0 /\
       histogram s !! 0%nat = Some h0 /\ position s !! 0%nat = Some 0 /\
       m0 == 0 /\ s0 == 0 /\ h0 == 0).
Proof.
  intros Hf Hs Hg.
  destruct (generate_signals_total data fast slow sp Hf Hs Hg) as [s H].
  exists s. split; [exact H|].
  destruct (generate_signals_lengths _ _ _ _ _ H) as (L1 & L2 & L3 & L4).
  repeat (split; [assumption|]).
  intros Hne. destruct data as [|x data]; [congruence|].
  destruct (generate_signals_inv _ _ _ _ _ H)
    as (ef & es & Ef & Es & Hm & Eg & Hh & _ & Ht & Hp).
  rewrite ewm_mean_ok in Ef, Es, Eg by assumption.
  injection Ef as <-. injection Es as <-.
  simpl in Hm. rewrite Hm in Eg. simpl in Eg. injection Eg as Eg.
  rewrite Hh, Hm, <- Eg, Hp, Ht, Hm, <- Eg. simpl.
  do 3 eexists. repeat (split; [reflexivity|]).
  assert (A : forall d : Q, ~ 1 + d * 0 == 0).
  { intros d E. ring_simplify in E. discriminate. }
  repeat split; field; repeat split; apply A.
Qed.

Lemma calculate_macd_numeric_from_first_row_witness :
  exists s, generate_signals short_series 12 26 9 = Ok s /\
            length (macd s) = 10%nat.
Proof.
  destruct (calculate_macd_numeric_from_first_row short_series 12 26 9)
    as (s & H & L & _); [lia | lia | lia |].
  exists s. split; [exact H | exact L].
Defined.

End SignalGenerator.

(** ** The signal line *)

Section SignalLine.
Import EnhancedETF.

Lemma length_decay_weights (decay : Q) (n : nat) : length (decay_weights decay n) = n.
Proof.
  induction n as [|n IH]; simpl; [reflexivity|].
  rewrite length_app, length_map, IH. simpl. lia.
Qed.

Lemma Qdot_decay_snoc (decay x : Q) (seen : list Q) :
  Qdot (decay_weights decay (S (length seen))) (seen ++ [x])
  == x + decay * Qdot (decay_weights decay (length seen)) seen.
Proof.
  simpl. rewrite Qdot_app by (rewrite length_map; apply length_decay_weights).
  rewrite Qdot_scale. simpl. ring.
Qed.

Lemma Qsum_decay_S (decay : Q) (n : nat) :
  Qsum (decay_weights decay (S n)) == 1 + decay * Qsum (decay_weights decay n).
Proof.
  simpl. rewrite Qsum_app, Qsum_scale. simpl. ring.
Qed.

(** Each entry of the running average is the weighted mean of the entries
    up to it, with the weights [decay_weights]. *)
Lemma ewm_from_weighted (decay : Q) (xs : list Q) :
  forall (seen : list Q) (num den : Q),
    num == Qdot (decay_weights decay (length seen)) seen ->
    den == Qsum (decay_weights decay (length seen)) ->
    forall (t : nat) (y : Q),
      ewm_from decay num den xs !! t = Some y ->
      y == Qdot (decay_weights decay (length seen + S t))
                (firstn (length seen + S t) (seen ++ xs))
           / Qsum (decay_weights decay (length seen + S t)).
Proof.
  induction xs as [|x xs IH]; intros seen num den Hn Hd t y Hy; [discriminate|].
  assert (Hn' : x + decay * num == Qdot (decay_weights decay (length (seen ++ [x]))) (seen ++ [x])).
  { rewrite length_app, Nat.add_1_r, Qdot_decay_snoc, Hn. reflexivity. }
  assert (Hd' : 1 + decay * den == Qsum (decay_weights decay (length (seen ++ [x])))).
  { rewrite length_app, Nat.add_1_r, Qsum_decay_S, Hd. reflexivity. }
  destruct t as [|t]; simpl in Hy.
  - injection Hy as <-.
    rewrite length_app in Hn', Hd'. simpl in Hn', Hd'.
    replace (firstn (length seen + 1) (seen ++ x :: xs)) with (seen ++ [x]).
    + rewrite Hn', Hd'. reflexivity.
    + rewrite firstn_app, firstn_all2 by lia.
      replace (length seen + 1 - length seen)%nat with 1%nat by lia. reflexivity.
  - specialize (IH (seen ++ [x]) _ _ Hn' Hd' t y Hy).
    rewrite length_app in IH. simpl in IH.
    replace (length seen + 1 + S t)%nat with (length seen + S (S t))%nat in IH by lia.
    rewrite <- app_assoc in IH. exact IH.
Qed.

Lemma ewm_mean_weighted (span : Z) (xs ys : list Q) (t : nat) (y : Q) :
  ewm_mean span xs = Ok ys -> ys !! t = Some y ->
  y == Qdot (decay_weights (1 - ewm_alpha span) (S t)) (firstn (S t) xs)
       / Qsum (decay_weights (1 - ewm_alpha span) (S t)).
Proof.
  unfold ewm_mean. destruct (span <? 1)%Z; [discriminate|]. intros [= <-] Hy.
  apply (ewm_from_weighted _ xs [] 0 0) in Hy; simpl; try reflexivity.
  exact Hy.
Qed.

Lemma calculate_macd_signal (data : list Q) (fast slow sp : Z) (m s h : list Q) :
  SingleAsset.calculate_macd data fast slow sp = Ok (m, s, h) -> ewm_mean sp m = Ok s.
Proof.
  unfold SingleAsset.calculate_macd.
  destruct (ewm_mean fast data) as [ef|]; simpl; [|discriminate].
  destruct (ewm_mean slow data) as [es|]; simpl; [|discriminate].
  destruct (ewm_mean sp (zip_with Qminus ef es)) as [sg|] eqn:Hg; simpl; [|discriminate].
  intros [= <- <- _]. exact Hg.
Qed.

Lemma UpdateMACDIndicators_signal_line (self self' : algorithm) (symbol_str : string)
    (price : Q) (etf etf' : etf_data) :
  etfs self !! symbol_str = Some etf ->
  UpdateMACDIndicators self symbol_str price = Ok self' ->
  etfs self' !! symbol_str = Some etf' ->
  etf' = etf \/
  exists m, macd etf' = Some m /\
            signal_line etf' = Some (m * (1 # 10) + or_zero (signal_line etf) * (9 # 10)).
Proof.
  intros He. unfold UpdateMACDIndicators, etf_of. rewrite He. simpl.
  destruct (optimal_params etf) as [[fast slow] sp].
  destruct (slow <=? Z.of_nat (length (price_history etf)))%Z.
  - destruct (CalculateEMA (price_history etf) fast) as [[f|]|];
      destruct (CalculateEMA (price_history etf) slow) as [[s|]|]; simpl;
      try discriminate; try (intros [= <-] He'; left; congruence).
    intros [= <-]. simpl. rewrite lookup_insert_eq. intros [= <-]. simpl.
    right. eexists. split; reflexivity.
  - intros [= <-] He'. left. congruence.
Qed.

Lemma UpdateMACDIndicators_ignores_signal_period (self : algorithm) (symbol_str : string)
    (price : Q) (sp' : Z) :
  signal_line_after (UpdateMACDIndicators (set_signal_period self symbol_str sp') symbol_str price)
                    symbol_str
  = signal_line_after (UpdateMACDIndicators self symbol_str price) symbol_str.
Proof.
  unfold UpdateMACDIndicators, etf_of, set_signal_period. simpl.
  rewrite lookup_alter. case_decide; [|congruence].
  destruct (etfs self !! symbol_str) as [etf|] eqn:He; simpl; [|reflexivity].
  destruct (optimal_params etf) as [[fast slow] sp]. simpl.
  destruct (slow <=? Z.of_nat (length (price_history etf)))%Z.
  - destruct (CalculateEMA (price_history etf) fast) as [[f|]|];
      destruct (CalculateEMA (price_history etf) slow) as [[s|]|]; simpl;
      try reflexivity;
      try (rewrite lookup_alter; case_decide; [|congruence]; rewrite He; reflexivity).
    rewrite !lookup_insert_eq. reflexivity.
  - simpl. rewrite lookup_alter. case_decide; [|congruence]. rewrite He. reflexivity.
Qed.

(** C4, as claimed, fails in the multi-asset code: with the signal period
    9 the claimed step from the signal line 1 uses alpha = 2/10; the code
    moves it by 1/10. *)
Lemma signal_line_not_signal_period_ema :
  exists self' etf' m sl,
    UpdateMACDIndicators spy_algorithm "SPY" 125 = Ok self' /\
    etfs self' !! "SPY"%string = Some etf' /\
    macd etf' = Some m /\ signal_line etf' = Some sl /\
    ~ sl == spec_signal_update 9 (signal_line spy_data) m.
Proof.
  do 4 eexists. split; [vm_compute; reflexivity|].
  split; [vm_compute; reflexivity|].
  split; [reflexivity|]. split; [reflexivity|].
  intros H. vm_compute in H. discriminate.
Qed.

(** C4, amended.  In [calculate_macd] the signal line is the exponential
    average of the MACD column with [alpha = 2 / (signal_period + 1)]: each
    entry is the mean of the MACD values up to it, weighted by the powers of
    [1 - alpha].  In [UpdateMACDIndicators] an update sets the signal line to
    0.1 * macd + 0.9 * previous (previous taken as 0 when unset), and the
    signal period in the ETF's parameters has no influence on it. *)
Theorem signal_line_smoothing :
  (forall (data : list Q) (fast slow sp : Z) (m s h : list Q),
     SingleAsset.calculate_macd data fast slow sp = Ok (m, s, h) ->
     ewm_mean sp m = Ok s /\
     forall (t : nat) (y : Q), s !! t = Some y ->
       y == Qdot (decay_weights (1 - 2 / (inject_Z sp + 1)) (S t)) (firstn (S t) m)
            / Qsum (decay_weights (1 - 2 / (inject_Z sp + 1)) (S t))) /\
  (forall (self self' : algorithm) (symbol_str : string) (price : Q) (etf etf' : etf_data),
     etfs self !! symbol_str = Some etf ->
     UpdateMACDIndicators self symbol_str price = Ok self' ->
     etfs self' !! symbol_str = Some etf' ->
     etf' = etf \/
     exists m, macd etf' = Some m /\
               signal_line etf' = Some (m * (1 # 10) + or_zero (signal_line etf) * (9 # 10))) /\
  (forall (self : algorithm) (symbol_str : string) (price : Q) (sp' : Z),
     signal_line_after
       (UpdateMACDIndicators (set_signal_period self symbol_str sp') symbol_str price) symbol_str
     = signal_line_after (UpdateMACDIndicators self symbol_str price) symbol_str).
Proof.
  split; [|split].
  - intros data fast slow sp m s h H. pose proof (calculate_macd_signal _ _ _ _ _ _ _ H) as Hs.
    split; [exact Hs|]. intros t y Hy. exact (ewm_mean_weighted sp m s t y Hs Hy).
  - apply UpdateMACDIndicators_signal_line.
  - apply UpdateMACDIndicators_ignores_signal_period.
Qed.

Lemma signal_line_smoothing_witness :
  exists self' etf' m,
    UpdateMACDIndicators spy_algorithm "SPY" 125 = Ok self' /\
    etfs self' !! "SPY"%string = Some etf' /\
    macd etf' = Some m /\
    signal_line etf' = Some (m * (1 # 10) + 1 * (9 # 10)).
Proof.
  assert (H : exists self' etf', UpdateMACDIndicators spy_algorithm "SPY" 125 = Ok self' /\
                                 etfs self' !! "SPY"%string = Some etf' /\ etf' <> spy_data).
  { do 2 eexists. split; [vm_compute; reflexivity|]. split; [vm_compute; reflexivity|].
    intros E. apply (f_equal ema_fast) in E. discriminate. }
  destruct H as (self' & etf' & Hu & He & Hne).
  destruct (proj1 (proj2 signal_line_smoothing) spy_algorithm self' "SPY"%string 125
              spy_data etf' eq_refl Hu He) as [E | (m & Hm & Hs)]; [contradiction|].
  exists self', etf', m. repeat split; assumption.
Defined.

End SignalLine.

(** ** The risk overlay *)

Section RiskOverlay.

(** The loop of the drawdown branch, shared by both algorithms. *)
Lemma breaker_fold_lookup (signals : gmap string Q) (k : string) :
  map_fold (fun symbol_str signal (filtered_signals : gmap string Q) =>
              if Qlt_le_dec 0 signal
              then <[symbol_str := 0]> filtered_signals
              else <[symbol_str := signal]> filtered_signals)
           ∅ signals !! k
  = breaker <$> signals !! k.
Proof.
  revert k. apply (map_fold_weak_ind (fun (r : gmap string Q) (m : gmap string Q) =>
                     forall k, r !! k = breaker <$> m !! k)).
  - intros k. rewrite !lookup_empty. reflexivity.
  - intros i x m r Hi IH k. unfold breaker at 1.
    destruct (decide (i = k)) as [->|Hne].
    + rewrite lookup_insert_eq. simpl. unfold breaker.
      destruct (Qlt_le_dec 0 x); rewrite lookup_insert_eq; reflexivity.
    + rewrite (lookup_insert_ne m) by exact Hne.
      destruct (Qlt_le_dec 0 x); rewrite lookup_insert_ne by exact Hne; apply IH.
Qed.

Lemma breaker_long (s : Q) : 0 < s -> breaker s = 0.
Proof. intros H. unfold breaker. destruct (Qlt_le_dec 0 s); [reflexivity|lra]. Qed.

Lemma breaker_not_long (s : Q) : s <= 0 -> breaker s = s.
Proof. intros H. unfold breaker. destruct (Qlt_le_dec 0 s); [lra|reflexivity]. Qed.

Lemma breaker_longs_zeroed (signals filtered : gmap string Q) :
  (forall k, filtered !! k = breaker <$> signals !! k) -> longs_zeroed signals filtered.
Proof.
  intros H k. rewrite H. repeat split.
  - intros s -> Hs. simpl. now rewrite breaker_long.
  - intros s -> Hs. simpl. now rewrite breaker_not_long.
  - intros ->. reflexivity.
Qed.

(** C8.  In both algorithms, when the drawdown is above [max_drawdown],
    [ApplyRiskManagement] returns a map that holds 0 for every key whose
    signal is positive, the signal itself for every key whose signal is zero
    or negative, and nothing for any other key. *)
Theorem drawdown_breaker_zeroes_longs (np_sqrt : Q -> Q) (signals : gmap string Q) :
  (forall self : EnhancedETF.algorithm,
     EnhancedETF.max_drawdown self < EnhancedETF.drawdown self ->
     exists filtered,
       EnhancedETF.ApplyRiskManagement np_sqrt self signals = Ok filtered /\
       longs_zeroed signals filtered) /\
  (forall self : SimpleETF.algorithm,
     SimpleETF.max_drawdown self < SimpleETF.drawdown self ->
     exists filtered,
       SimpleETF.ApplyRiskManagement np_sqrt self signals = Ok filtered /\
       longs_zeroed signals filtered).
Proof.
  split; intros self Hdd.
  - unfold EnhancedETF.ApplyRiskManagement.
    destruct (Qlt_le_dec (EnhancedETF.max_drawdown self) (EnhancedETF.drawdown self)); [|lra].
    eexists. split; [reflexivity|]. apply breaker_longs_zeroed, breaker_fold_lookup.
  - unfold SimpleETF.ApplyRiskManagement.
    destruct (Qlt_le_dec (SimpleETF.max_drawdown self) (SimpleETF.drawdown self)); [|lra].
    eexists. split; [reflexivity|]. apply breaker_longs_zeroed, breaker_fold_lookup.
Qed.

Lemma drawdown_breaker_zeroes_longs_witness :
  (exists filtered,
     EnhancedETF.ApplyRiskManagement (fun q => q) drawdown_enhanced mixed_signals = Ok filtered /\
     filtered !! "SPY"%string = Some 0 /\ filtered !! "QQQ"%string = Some (-1)) /\
  (exists filtered,
     SimpleETF.ApplyRiskManagement (fun q => q) drawdown_simple mixed_signals = Ok filtered /\
     filtered !! "SPY"%string = Some 0 /\ filtered !! "XLK"%string = Some 0).
Proof.
  split.
  - destruct (proj1 (drawdown_breaker_zeroes_longs (fun q => q) mixed_signals) drawdown_enhanced)
      as (filtered & Hf & Hz); [reflexivity|].
    exists filtered. split; [exact Hf|]. split.
    + apply (proj1 (Hz "SPY"%string) 1); reflexivity.
    + apply (proj1 (proj2 (Hz "QQQ"%string)) (-1)); [reflexivity|]. discriminate.
  - destruct (proj2 (drawdown_breaker_zeroes_longs (fun q => q) mixed_signals) drawdown_simple)
      as (filtered & Hf & Hz); [reflexivity|].
    exists filtered. split; [exact Hf|]. split.
    + apply (proj1 (Hz "SPY"%string) 1); reflexivity.
    + apply (proj1 (proj2 (Hz "XLK"%string)) 0); [reflexivity|]. discriminate.
Defined.

End RiskOverlay.

(** ** Position sizing *)

Section PositionSizing.
Variable np_sqrt : Q -> Q.

Lemma py_min_Qmin (a b : Q) : py_min a b == Qmin b a.
Proof.
  unfold py_min. destruct (Qlt_le_dec b a) as [H|H].
  - rewrite Q.min_l by lra. reflexivity.
  - rewrite Q.min_r by lra. reflexivity.
Qed.

Lemma py_min_Qmin' (a b : Q) : py_min a b == Qmin a b.
Proof. rewrite py_min_Qmin. apply Q.min_comm. Qed.

Lemma py_max_Qmax (a b : Q) : py_max a b == Qmax a b.
Proof.
  unfold py_max. destruct (Qlt_le_dec a b) as [H|H].
  - rewrite Q.max_r by lra. reflexivity.
  - rewrite Q.max_l by lra. reflexivity.
Qed.

Lemma py_min_le_r (a b : Q) : py_min a b <= b.
Proof. unfold py_min. destruct (Qlt_le_dec b a); lra. Qed.

(** The body of both sizing functions after the volatility is known. *)
Lemma sizing_formula (max_size vol : Q) :
  py_min (max_size * py_min ((15 # 100) / py_max vol (5 # 100)) 2) max_size
  == spec_position_size max_size vol.
Proof.
  unfold spec_position_size. rewrite py_min_Qmin.
  apply Q.min_compat; [reflexivity|].
  rewrite py_min_Qmin', py_max_Qmax. reflexivity.
Qed.

Lemma slice_last (vw : Z) (l : list Q) :
  (1 <= vw <= Z.of_nat (length l))%Z ->
  py_slice_from (- vw) l = skipn (length l - Z.to_nat vw) l.
Proof.
  intros H. unfold py_slice_from, slice_bound.
  destruct (Z.ltb_spec (- vw) 0); [|lia]. f_equal. lia.
Qed.

(** C9.  For an ETF with at least [volatility_window] recorded returns (and a
    window of at least one), [CalculatePositionSize], and [AdjustForVolatility]
    called with the base size [max_position_size] as [ApplyRiskManagement]
    calls it, return
    min(maxPositionSize, maxPositionSize * min(0.15 / max(assetVol, 0.05), 2)),
    where assetVol is the annualised volatility of the [volatility_window]
    most recent returns; the size is never above [max_position_size]. *)
Theorem position_size_inverse_volatility :
  (forall (self : EnhancedETF.algorithm) (symbol_str : string) (signal : Q)
          (etf : EnhancedETF.etf_data),
     EnhancedETF.etfs self !! symbol_str = Some etf ->
     (1 <= EnhancedETF.volatility_window self
        <= Z.of_nat (length (EnhancedETF.returns etf)))%Z ->
     exists size,
       EnhancedETF.CalculatePositionSize np_sqrt self symbol_str signal = Ok size /\
       size == spec_position_size (EnhancedETF.max_position_size self)
                 (annual_volatility np_sqrt
                    (skipn (length (EnhancedETF.returns etf)
                            - Z.to_nat (EnhancedETF.volatility_window self))
                           (EnhancedETF.returns etf))) /\
       size <= EnhancedETF.max_position_size self) /\
  (forall (self : SimpleETF.algorithm) (symbol_str : string) (etf : SimpleETF.etf_data),
     SimpleETF.etfs self !! symbol_str = Some etf ->
     (1 <= SimpleETF.volatility_window self
        <= Z.of_nat (length (SimpleETF.returns etf)))%Z ->
     exists size,
       SimpleETF.AdjustForVolatility np_sqrt self symbol_str (SimpleETF.max_position_size self)
       = Ok size /\
       size == spec_position_size (SimpleETF.max_position_size self)
                 (annual_volatility np_sqrt
                    (firstn (Z.to_nat (SimpleETF.volatility_window self))
                            (SimpleETF.returns etf))) /\
       size <= SimpleETF.max_position_size self).
Proof.
  split.
  - intros self symbol_str signal etf He Hvw.
    unfold EnhancedETF.CalculatePositionSize, EnhancedETF.etf_of. rewrite He. simpl.
    destruct (Z.ltb_spec (Z.of_nat (length (EnhancedETF.returns etf)))
                         (EnhancedETF.volatility_window self)); [lia|].
    eexists. split; [reflexivity|]. split.
    + rewrite slice_last by exact Hvw. apply sizing_formula.
    + apply py_min_le_r.
  - intros self symbol_str etf He Hvw.
    unfold SimpleETF.AdjustForVolatility, SimpleETF.etf_of. rewrite He. simpl.
    destruct (Z.ltb_spec (Z.of_nat (length (SimpleETF.returns etf)))
                         (SimpleETF.volatility_window self)); [lia|].
    eexists. split; [reflexivity|]. split.
    + rewrite Z.min_l by lia. apply sizing_formula.
    + apply py_min_le_r.
Qed.

End PositionSizing.

Lemma position_size_inverse_volatility_witness :
  exists size,
    EnhancedETF.CalculatePositionSize (fun q => q) drawdown_enhanced "SPY" 1 = Ok size /\
    size <= 125 # 1000.
Proof.
  destruct (proj1 (position_size_inverse_volatility (fun q => q))
              drawdown_enhanced "SPY"%string 1 spy_two_returns)
    as (size & Hs & _ & Hle); [reflexivity | simpl; lia |].
  exists size. split; [exact Hs | exact Hle].
Defined.

(** ** Metrics, the objective and the walk-forward windows *)

Section Scoring.
Import SingleAsset.
Variable np_sqrt : fval -> fval.
Variable np_power : fval -> Q -> fval.

(** The guards that [calculate_metrics] does have: whenever it returns, a
    volatility that is not positive gives the Sharpe ratio 0, an empty list
    of market returns or a market deviation that is not positive gives the
    beta 0. *)
Lemma calculate_metrics_guards (returns : results_frame) (m : metrics) :
  calculate_metrics np_sqrt np_power returns = Ok m ->
  (fgt (volatility m) (Fin 0) = false -> sharpe_ratio m = Fin 0) /\
  (dropna (market_return returns) = [] -> beta m = Fin 0) /\
  (fgt (np_sqrt (sample_var (dropna (market_return returns)))) (Fin 0) = false ->
   beta m = Fin 0).
Proof.
  unfold calculate_metrics.
  destruct (iloc_last (strategy_cumulative returns)) as [ls|]; cbn [rbind]; [|discriminate].
  destruct (iloc_last (market_cumulative returns)) as [lm|]; cbn [rbind]; [|discriminate].
  destruct (length (dropna (strategy_return returns))) as [|n] eqn:Hn; cbn [rbind];
    [discriminate|].
  destruct (dropna (market_return returns)) as [|r rs] eqn:Hm.
  - cbn [length Nat.ltb Nat.leb andb rbind]. intros [= <-]. cbn [volatility sharpe_ratio beta].
    repeat split; auto. intros Hv. unfold fgt, flt in Hv. rewrite Hv. reflexivity.
  - destruct (fgt (np_sqrt (sample_var (r :: rs))) (Fin 0)) eqn:Hs.
    + cbn [length Nat.ltb Nat.leb andb].
      destruct (S n =? S (length rs))%nat; cbn [rbind]; [|discriminate].
      intros [= <-]. cbn [volatility sharpe_ratio beta].
      repeat split; try discriminate. intros Hv. unfold fgt, flt in Hv. rewrite Hv. reflexivity.
    + cbn [length Nat.ltb Nat.leb andb rbind]. intros [= <-].
      cbn [volatility sharpe_ratio beta].
      repeat split; auto. intros Hv. unfold fgt, flt in Hv. rewrite Hv. reflexivity.
Qed.

(** C7.  The claim fails on the code by a missing guard: on a frame with a
    single row the strategy returns are all missing, and
    [252 / len(strategy_returns)] divides by zero before any of the guarded
    metrics is reached; on a frame without rows [iloc[-1]] is out of bounds. *)
Theorem calculate_metrics_raises_on_missing_returns :
  dropna (strategy_return (calculate_returns single_row default_transaction_cost)) = [] /\
  calculate_metrics np_sqrt np_power (calculate_returns single_row default_transaction_cost)
  = Raise ZeroDivisionError /\
  calculate_metrics np_sqrt np_power (calculate_returns no_rows default_transaction_cost)
  = Raise IndexError.
Proof. repeat split. Qed.

(** C1.  The claim fails on the code by the sign of the sentinel: for a
    candidate with fast period 26 and slow period 12 [objective_function]
    returns minus infinity, below every other score and so the best one for
    the minimizer, where its own failure path returns plus infinity; the
    closure [objective] of the multi-asset optimizer returns -1000. *)
Theorem objective_function_rewards_crossed_periods (data : list Q)
    (etf_sqrt : Q -> Q) :
  objective_function np_sqrt np_power crossed_periods data = NInf /\
  (forall score, flt score NInf = false) /\
  flt NInf PInf = true /\
  EnhancedETF.objective etf_sqrt data crossed_periods = Ok (-1000).
Proof.
  repeat split. intros [q| | |]; reflexivity.
Qed.

End Scoring.

Section WalkForward.
Import SingleAsset.

Lemma py_range_lookup (stop step : Z) :
  (0 < step)%Z ->
  exists starts,
    py_range 0 stop step = Ok starts /\
    (forall k x, starts !! k = Some x -> x = (Z.of_nat k * step)%Z /\ (x < stop)%Z) /\
    (forall k, (Z.of_nat k * step < stop)%Z -> starts !! k = Some (Z.of_nat k * step)%Z).
Proof.
  intros Hstep. unfold py_range.
  destruct (Z.eqb_spec step 0); [lia|].
  destruct (Z.ltb_spec 0 step); [|lia].
  eexists. split; [reflexivity|].
  set (count := if (0 <? stop)%Z then ((stop - 0 - 1) / step + 1)%Z else 0%Z).
  assert (Hcount : forall j : nat, (j < Z.to_nat count)%nat <-> (Z.of_nat j * step < stop)%Z).
  { intros j. unfold count. destruct (Z.ltb_spec 0 stop) as [Hs|Hs].
    - replace (stop - 0 - 1)%Z with (stop - 1)%Z by lia.
      pose proof (Z.div_pos (stop - 1) step ltac:(lia) ltac:(lia)) as Hq.
      split; intros Hj.
      + assert (Z.of_nat j <= (stop - 1) / step)%Z as Hle by lia.
        pose proof (Z.mul_div_le (stop - 1) step ltac:(lia)). nia.
      + assert (Z.of_nat j <= (stop - 1) / step)%Z as Hle.
        { apply Z.div_le_lower_bound; lia. }
        lia.
    - split; intros Hj; [simpl in Hj; lia | nia]. }
  split.
  - intros j x Hx. rewrite lookup_map in Hx.
    destruct (seq 0 (Z.to_nat count) !! j) as [i|] eqn:Hi; [|discriminate].
    apply lookup_seq in Hi as [-> Hlt]. simpl in Hx. injection Hx as <-.
    split; [lia|]. apply Hcount in Hlt. lia.
  - intros j Hj. apply Hcount in Hj. rewrite lookup_map.
    rewrite (lookup_seq_lt 0 _ j) by exact Hj. simpl. f_equal.
Qed.

(** What the loop header does produce, for a positive test window: the
    [k]-th pass starts at [k * test_window]; its optimization window has the
    full length and ends where its test window begins; the test window has the
    full length and ends before the last row; the test window of the next
    pass begins where this one ends; and there is a pass for every [k] with
    [k * test_window + optimization_window + test_window < n]. *)
Lemma walk_forward_windows_spec (n optimization_window test_window : Z) :
  (0 < test_window)%Z ->
  exists ws,
    walk_forward_windows n optimization_window test_window = Ok ws /\
    (forall k w, ws !! k = Some w ->
       opt_start w = (Z.of_nat k * test_window)%Z /\
       opt_end w = (opt_start w + optimization_window)%Z /\
       test_start w = opt_end w /\
       test_end w = (test_start w + test_window)%Z /\
       (test_end w < n)%Z) /\
    (forall k w w', ws !! k = Some w -> ws !! S k = Some w' -> test_start w' = test_end w) /\
    (forall k : nat,
       (Z.of_nat k * test_window + optimization_window + test_window < n)%Z ->
       is_Some (ws !! k)).
Proof.
  intros Ht. unfold walk_forward_windows.
  destruct (py_range_lookup (n - optimization_window - test_window) test_window Ht)
    as (starts & -> & Hsome & Hall).
  simpl. eexists. split; [reflexivity|].
  assert (Hw : forall k w,
             map (window_at n optimization_window test_window) starts !! k = Some w ->
             opt_start w = (Z.of_nat k * test_window)%Z /\
             opt_end w = (opt_start w + optimization_window)%Z /\
             test_start w = opt_end w /\
             test_end w = (test_start w + test_window)%Z /\
             (test_end w < n)%Z).
  { intros k w Hk. rewrite lookup_map in Hk.
    destruct (starts !! k) as [x|] eqn:Hx; [|discriminate].
    injection Hk as <-. destruct (Hsome k x Hx) as [-> Hlt]. simpl.
    rewrite Z.min_l by lia. repeat split; lia. }
  split; [exact Hw|]. split.
  - intros k w w' Hk Hk'.
    destruct (Hw _ _ Hk) as (A1 & A2 & A3 & A4 & _).
    destruct (Hw _ _ Hk') as (B1 & B2 & B3 & _ & _).
    rewrite B3, B2, B1, A4, A3, A2, A1. lia.
  - intros k Hk. rewrite lookup_map, (Hall k) by lia. simpl. eauto.
Qed.

(** C6.  The claim fails on the code by one row: with 315 rows, an
    optimization window of 252 and a test window of 63, one full pair of
    windows fits (0 + 252 + 63 <= 315), yet the loop header
    [range(0, 315 - 252 - 63, 63)] is empty, so no window is produced and the
    analysis returns no result. *)
Theorem walk_forward_skips_exact_fit (np_sqrt : fval -> fval) (np_power : fval -> Q -> fval)
    (minimize : (Q * Q * Q -> fval) -> option (Q * Q * Q)) :
  (0 + 252 + 63 <= 315)%Z /\
  walk_forward_windows 315 252 63 = Ok [] /\
  walk_forward_analysis np_sqrt np_power minimize (repeat 100 315) 252 63 = Ok [].
Proof.
  split; [lia|]. split; reflexivity.
Qed.

End WalkForward.

(** * Further properties of the single-asset pipeline *)

Section FlatSeries.
Import SingleAsset.

Lemma ewm_decay_range (span : Z) :
  (1 <= span)%Z -> 0 <= 1 - ewm_alpha span /\ 1 - ewm_alpha span < 1.
Proof.
  intros Hs. unfold ewm_alpha.
  assert (H2 : 2 <= inject_Z span + 1).
  { assert (inject_Z 1 <= inject_Z span) by (rewrite <- Zle_Qle; lia).
    change (inject_Z 1) with 1 in H. lra. }
  assert (0 < 2 / (inject_Z span + 1)) by (apply Qlt_shift_div_l; lra).
  assert (2 / (inject_Z span + 1) <= 1) by (apply Qle_shift_div_r; lra).
  split; lra.
Qed.

(** The running average of a constant column is that constant. *)
Lemma ewm_from_const (decay c : Q) (xs : list Q) :
  0 <= decay ->
  forall num den, 0 <= den -> num == c * den ->
  Forall (fun x => x == c) xs ->
  Forall (fun y => y == c) (ewm_from decay num den xs).
Proof.
  intros Hd. induction xs as [|x xs IH]; intros num den Hden Hnum Hall; simpl.
  - constructor.
  - inversion Hall as [|? ? Hx Hxs]; subst.
    assert (Hpos : 0 < 1 + decay * den) by nra.
    constructor.
    + rewrite Hx, Hnum. field. lra.
    + apply IH; [lra | | exact Hxs]. rewrite Hx, Hnum. ring.
Qed.

Lemma ewm_mean_const (span : Z) (c : Q) (xs ys : list Q) :
  (1 <= span)%Z -> Forall (fun x => x == c) xs -> ewm_mean span xs = Ok ys ->
  Forall (fun y => y == c) ys.
Proof.
  intros Hs Hall. rewrite ewm_mean_ok by exact Hs. intros [= <-].
  apply ewm_from_const; try assumption; try lra.
  apply ewm_decay_range, Hs.
Qed.

Lemma zip_minus_zero (c : Q) (xs ys : list Q) :
  Forall (fun x => x == c) xs -> Forall (fun y => y == c) ys ->
  Forall (fun z => z == 0) (zip_with Qminus xs ys).
Proof.
  intros Hx. revert ys. induction Hx as [|x xs Hx _ IH]; intros ys Hy; simpl.
  - constructor.
  - destruct Hy as [|y ys Hy Hys]; constructor.
    + rewrite Hx, Hy. ring.
    + apply IH, Hys.
Qed.

Lemma nth_all_zero (l : list Q) (i : nat) :
  Forall (fun z => z == 0) l -> nth i l 0 == 0.
Proof.
  intros H. revert i. induction H as [|x l Hx _ IH]; intros [|i]; simpl;
    try reflexivity; auto.
Qed.

Lemma trigger_at_zero (macd signal : list Q) (i : nat) :
  Forall (fun z => z == 0) macd -> Forall (fun z => z == 0) signal ->
  trigger_at macd signal i = 0%Z.
Proof.
  intros Hm Hs. unfold trigger_at.
  assert (A : forall a b : Q, a == 0 -> b == 0 -> Qle_bool a b = true).
  { intros a b Ha Hb. apply Qle_bool_iff. rewrite Ha, Hb. lra. }
  rewrite (A (nth i macd 0) (nth i signal 0)) by (apply nth_all_zero; assumption).
  rewrite (A (nth i signal 0) (nth i macd 0)) by (apply nth_all_zero; assumption).
  reflexivity.
Qed.

Lemma triggers_zero (macd signal : list Q) :
  Forall (fun z => z == 0) macd -> Forall (fun z => z == 0) signal ->
  Forall (fun t => t = 0%Z) (triggers macd signal).
Proof.
  intros Hm Hs. unfold triggers. apply Forall_map, Forall_forall.
  intros [|i] _; simpl; [reflexivity|]. apply trigger_at_zero; assumption.
Qed.

Lemma cumsum_from_zero (l : list Z) :
  Forall (fun t => t = 0%Z) l -> Forall (fun t => t = 0%Z) (cumsum_from 0 l).
Proof.
  induction 1 as [|x l Hx _ IH]; simpl; constructor; subst; simpl; auto.
Qed.

Lemma position_of_zero (l : list Z) :
  Forall (fun t => t = 0%Z) l ->
  Forall (fun p => p = 0) (map inject_Z (clip (-1) 1 l)).
Proof.
  intros H. unfold clip. rewrite map_map. apply Forall_map.
  eapply Forall_impl; [exact H|]. intros z ->. reflexivity.
Qed.

(** X1.  On a price series whose closes are all equal, for periods of at
    least one, the MACD line, the signal line and the histogram are zero at
    every row, no trigger fires and the position is flat at every row; when
    the close is not zero every strategy return after the first row is zero,
    whatever the transaction cost. *)
Theorem flat_series_no_crossover (data : list Q) (c : Q) (fast slow sp : Z) :
  (1 <= fast)%Z -> (1 <= slow)%Z -> (1 <= sp)%Z ->
  Forall (fun x => x == c) data ->
  exists s, generate_signals data fast slow sp = Ok s /\
    Forall (fun z => z == 0) (macd s) /\
    Forall (fun z => z == 0) (signal s) /\
    Forall (fun z => z == 0) (histogram s) /\
    Forall (fun t => t = 0%Z) (signal_trigger s) /\
    Forall (fun p => p = 0) (position s) /\
    length (position s) = length data /\
    (~ c == 0 ->
     forall cost i r,
       strategy_return (calculate_returns s cost) !! S i = Some r -> feq r (Fin 0)).
Proof.
  intros Hf Hs Hg Hall.
  destruct (generate_signals_total data fast slow sp Hf Hs Hg) as [s H].
  exists s. split; [exact H|].
  destruct (generate_signals_inv _ _ _ _ _ H)
    as (ef & es & Ef & Es & Hm & Eg & Hh & HC & Ht & Hp).
  assert (Zm : Forall (fun z => z == 0) (macd s)).
  { rewrite Hm. apply (zip_minus_zero c).
    - exact (ewm_mean_const fast c data ef Hf Hall Ef).
    - exact (ewm_mean_const slow c data es Hs Hall Es). }
  assert (Zs : Forall (fun z => z == 0) (signal s)).
  { exact (ewm_mean_const sp 0 (macd s) (signal s) Hg Zm Eg). }
  assert (Zt : Forall (fun t => t = 0%Z) (signal_trigger s)).
  { rewrite Ht. apply triggers_zero; assumption. }
  assert (Zp : Forall (fun p => p = 0) (position s)).
  { rewrite Hp. apply position_of_zero, cumsum_from_zero, Zt. }
  assert (Lp : length (position s) = length data).
  { apply (generate_signals_lengths _ _ _ _ _ H). }
  do 3 (split; [first [assumption | rewrite Hh; apply (zip_minus_zero 0); assumption]|]).
  split; [exact Zt|]. split; [exact Zp|]. split; [exact Lp|].
  intros Hc cost i r Hr.
  assert (Hi : (S i < length data)%nat).
  { apply lookup_lt_Some in Hr. unfold calculate_returns, pct_change, diff in Hr.
    cbn [strategy_return] in Hr.
    repeat (rewrite length_zip_with in Hr || rewrite length_map in Hr).
    rewrite HC in Hr. lia. }
  destruct (lookup_lt_is_Some_2 (position s) i) as [p0 Hp0]; [lia|].
  destruct (lookup_lt_is_Some_2 (position s) (S i)) as [p1 Hp1]; [lia|].
  destruct (lookup_lt_is_Some_2 data i) as [c0 Hc0]; [lia|].
  destruct (lookup_lt_is_Some_2 data (S i)) as [c1 Hc1]; [lia|].
  rewrite Forall_lookup in Zp, Hall.
  rewrite (Zp _ _ Hp0) in Hp0. rewrite (Zp _ _ Hp1) in Hp1.
  pose proof (Hall _ _ Hc0) as E0. pose proof (Hall _ _ Hc1) as E1. cbv beta in E0, E1.
  rewrite <- HC in Hc0, Hc1.
  rewrite (strategy_return_lookup s cost i 0 0 c0 c1 Hp0 Hp1 Hc0 Hc1) in Hr.
  injection Hr as <-.
  assert (Hnz : Qeq_bool c0 0 = false).
  { destruct (Qeq_bool c0 0) eqn:E; [|reflexivity].
    apply Qeq_bool_iff in E. rewrite E0 in E. contradiction. }
  unfold fsub, fdiv, fmul, fadd, fneg, fabs, feq. rewrite Hnz.
  change (Z.abs (0 * 1 + - 0 * 1) # 1 * 1) with 0.
  assert (Hd : ~ c0 == 0) by (rewrite E0; exact Hc). field. exact Hd.
Qed.

Lemma flat_series_no_crossover_witness :
  exists s, generate_signals flat_series 12 26 9 = Ok s /\
            Forall (fun p => p = 0) (position s).
Proof.
  destruct (flat_series_no_crossover flat_series 100 12 26 9)
    as (s & H & _ & _ & _ & _ & Hp & _ & _); [lia | lia | lia | |].
  - repeat constructor.
  - exists s. split; [exact H | exact Hp].
Defined.

End FlatSeries.

Section Causality.
Import SingleAsset.

Lemma ewm_from_app (decay : Q) (xs more : list Q) :
  forall num den,
    ewm_from decay num den xs `prefix_of` ewm_from decay num den (xs ++ more).
Proof.
  induction xs as [|x xs IH]; intros num den; simpl.
  - apply prefix_nil.
  - apply prefix_cons, IH.
Qed.

Lemma zip_minus_prefix (a a' b b' : list Q) :
  length a = length b -> a `prefix_of` a' -> b `prefix_of` b' ->
  zip_with Qminus a b `prefix_of` zip_with Qminus a' b'.
Proof.
  intros Hlen [ta ->] [tb ->]. exists (zip_with Qminus ta tb).
  apply zip_with_app. exact Hlen.
Qed.

Lemma nth_prefix (l l' : list Q) (i : nat) :
  l `prefix_of` l' -> (i < length l)%nat -> nth i l' 0 = nth i l 0.
Proof.
  intros [t ->] Hi. apply app_nth1. exact Hi.
Qed.

Lemma triggers_prefix (m m' s s' : list Q) :
  length m = length s -> m `prefix_of` m' -> s `prefix_of` s' ->
  triggers m s `prefix_of` triggers m' s'.
Proof.
  intros Hlen Hm Hs.
  assert (Hnth : forall i, (i < length m)%nat ->
                           trigger_at m' s' i = trigger_at m s i).
  { intros i Hi. unfold trigger_at.
    rewrite !(nth_prefix m m') by (assumption || lia).
    rewrite !(nth_prefix s s') by (assumption || lia).
    reflexivity. }
  destruct Hm as [tm Em]. unfold triggers.
  replace (length m') with (length m + length tm)%nat
    by (rewrite Em, length_app; reflexivity).
  rewrite seq_app, map_app. eexists. f_equal.
  apply map_ext_in. intros [|i] Hi; [reflexivity|].
  apply in_seq in Hi. rewrite Hnth by lia. reflexivity.
Qed.

Lemma cumsum_from_prefix (l l' : list Z) :
  l `prefix_of` l' -> forall acc, cumsum_from acc l `prefix_of` cumsum_from acc l'.
Proof.
  intros [t ->]. induction l as [|x l IH]; intros acc; simpl.
  - apply prefix_nil.
  - apply prefix_cons, IH.
Qed.

Lemma map_prefix {A B} (f : A -> B) (l l' : list A) :
  l `prefix_of` l' -> map f l `prefix_of` map f l'.
Proof. intros [t ->]. rewrite map_app. eexists. reflexivity. Qed.

Lemma ewm_mean_prefix (span : Z) (xs xs' ys ys' : list Q) :
  xs `prefix_of` xs' -> ewm_mean span xs = Ok ys -> ewm_mean span xs' = Ok ys' ->
  ys `prefix_of` ys'.
Proof.
  intros [t ->]. unfold ewm_mean. destruct (span <? 1)%Z; [discriminate|].
  intros [= <-] [= <-]. apply ewm_from_app.
Qed.

(** X2.  The signal generator does not look ahead: when rows are appended
    to the price series, every column of the frame computed before (macd,
    signal, histogram, triggers, position) is a prefix of the column
    computed on the longer series. *)
Theorem generate_signals_causal (data more : list Q) (fast slow sp : Z) (s : signals_frame) :
  generate_signals data fast slow sp = Ok s ->
  exists s', generate_signals (data ++ more) fast slow sp = Ok s' /\
    macd s `prefix_of` macd s' /\
    signal s `prefix_of` signal s' /\
    histogram s `prefix_of` histogram s' /\
    signal_trigger s `prefix_of` signal_trigger s' /\
    position s `prefix_of` position s'.
Proof.
  intros H.
  destruct (generate_signals_inv _ _ _ _ _ H)
    as (ef & es & Ef & Es & Hm & Eg & Hh & _ & Ht & Hp).
  destruct (generate_signals_lengths _ _ _ _ _ H) as (L1 & L2 & _ & _).
  assert (Hper : (1 <= fast)%Z /\ (1 <= slow)%Z /\ (1 <= sp)%Z).
  { unfold ewm_mean in Ef, Es, Eg.
    destruct (Z.ltb_spec fast 1); [discriminate|].
    destruct (Z.ltb_spec slow 1); [discriminate|].
    destruct (Z.ltb_spec sp 1); [discriminate|]. lia. }
  destruct Hper as (Hf & Hs & Hg).
  destruct (generate_signals_total (data ++ more) fast slow sp Hf Hs Hg) as [s' H'].
  exists s'. split; [exact H'|].
  destruct (generate_signals_inv _ _ _ _ _ H')
    as (ef' & es' & Ef' & Es' & Hm' & Eg' & Hh' & _ & Ht' & Hp').
  assert (Pd : data `prefix_of` data ++ more) by (eexists; reflexivity).
  assert (Pm : macd s `prefix_of` macd s').
  { rewrite Hm, Hm'. apply zip_minus_prefix.
    - apply ewm_mean_length in Ef, Es. lia.
    - exact (ewm_mean_prefix fast _ _ _ _ Pd Ef Ef').
    - exact (ewm_mean_prefix slow _ _ _ _ Pd Es Es'). }
  assert (Ps : signal s `prefix_of` signal s').
  { exact (ewm_mean_prefix sp _ _ _ _ Pm Eg Eg'). }
  assert (Pt : signal_trigger s `prefix_of` signal_trigger s').
  { rewrite Ht, Ht'. apply triggers_prefix; [lia | assumption | assumption]. }
  repeat split; try assumption.
  - rewrite Hh, Hh'. apply zip_minus_prefix; [lia | assumption | assumption].
  - rewrite Hp, Hp'. apply map_prefix. unfold clip. apply map_prefix.
    apply cumsum_from_prefix, Pt.
Qed.

Lemma generate_signals_causal_witness :
  exists s s', generate_signals [10; 9; 8] 12 26 9 = Ok s /\
               generate_signals ([10; 9; 8] ++ [7; 8; 9]) 12 26 9 = Ok s' /\
               position s `prefix_of` position s'.
Proof.
  destruct (generate_signals_total [10; 9; 8] 12 26 9) as [s H]; [lia | lia | lia |].
  destruct (generate_signals_causal [10; 9; 8] [7; 8; 9] 12 26 9 s H)
    as (s' & H' & _ & _ & _ & _ & Hp).
  exists s, s'. repeat split; assumption.
Defined.

End Causality.

Section ReturnsShape.
Import SingleAsset.

Lemma length_removelast {A} (l : list A) : length (removelast l) = (length l - 1)%nat.
Proof.
  induction l as [|x l IH]; [reflexivity|].
  destruct l as [|y l]; [reflexivity|].
  change (removelast (x :: y :: l)) with (x :: removelast (y :: l)).
  simpl length in *. rewrite IH. lia.
Qed.

Lemma length_shift1 (l : list fval) : length (shift1 l) = length l.
Proof.
  destruct l as [|x l]; [reflexivity|].
  unfold shift1.
  change (length (NaN :: removelast (x :: l))) with (S (length (removelast (x :: l)))).
  rewrite length_removelast. simpl. lia.
Qed.

Lemma length_cumprod_from (acc : fval) (l : list fval) :
  length (cumprod_from acc l) = length l.
Proof.
  revert acc. induction l as [|x l IH]; intros acc; [reflexivity|].
  destruct x; simpl; now rewrite IH.
Qed.

Lemma length_pct_change (l : list fval) : length (pct_change l) = length l.
Proof. unfold pct_change. rewrite length_zip_with, length_shift1. lia. Qed.

Lemma length_diff (l : list fval) : length (diff l) = length l.
Proof. unfold diff. rewrite length_zip_with, length_shift1. lia. Qed.

(** The columns added by [calculate_returns] are as long as the frame. *)
Lemma calculate_returns_lengths (s : signals_frame) (cost : Q) :
  length (position s) = length (Close s) ->
  length (market_return (calculate_returns s cost)) = length (Close s) /\
  length (position_change (calculate_returns s cost)) = length (Close s) /\
  length (transaction_costs (calculate_returns s cost)) = length (Close s) /\
  length (strategy_return (calculate_returns s cost)) = length (Close s) /\
  length (market_cumulative (calculate_returns s cost)) = length (Close s) /\
  length (strategy_cumulative (calculate_returns s cost)) = length (Close s).
Proof.
  intros Hlen. unfold calculate_returns, cumprod.
  cbn [market_return position_change transaction_costs strategy_return
       market_cumulative strategy_cumulative].
  repeat (rewrite length_cumprod_from || rewrite length_map || rewrite length_zip_with
          || rewrite length_shift1 || rewrite length_pct_change || rewrite length_diff).
  lia.
Qed.

(** The first row of every added column is missing. *)
Lemma calculate_returns_first_row (s : signals_frame) (cost : Q) :
  length (position s) = length (Close s) -> Close s <> [] ->
  market_return (calculate_returns s cost) !! 0%nat = Some NaN /\
  position_change (calculate_returns s cost) !! 0%nat = Some NaN /\
  transaction_costs (calculate_returns s cost) !! 0%nat = Some NaN /\
  strategy_return (calculate_returns s cost) !! 0%nat = Some NaN /\
  market_cumulative (calculate_returns s cost) !! 0%nat = Some NaN /\
  strategy_cumulative (calculate_returns s cost) !! 0%nat = Some NaN.
Proof.
  intros Hlen Hne. unfold calculate_returns, cumprod, pct_change, diff. simpl.
  destruct (Close s) as [|c cs]; [congruence|].
  destruct (position s) as [|p ps]; [discriminate|].
  repeat split.
Qed.

Lemma transaction_costs_lookup (s : signals_frame) (cost : Q) (i : nat) (p p' : Q) :
  position s !! i = Some p -> position s !! S i = Some p' ->
  transaction_costs (calculate_returns s cost) !! S i
  = Some (Fin (Qabs (p' + - p) * cost)).
Proof.
  intros Hp Hp'.
  assert (Hl : (S i < length (map Fin (position s)))%nat).
  { rewrite length_map. apply lookup_lt_Some in Hp'. exact Hp'. }
  unfold calculate_returns, diff. simpl.
  rewrite !lookup_map, lookup_zip_with, lookup_shift1_S by exact Hl.
  rewrite !lookup_map, Hp, Hp'. reflexivity.
Qed.

(** X3.  [calculate_returns] keeps the shape of the frame: each of the six
    columns it adds has one entry per row, and on a frame with rows the
    first entry of each is missing (NaN). *)
Theorem calculate_returns_shape (s : signals_frame) (cost : Q) :
  length (position s) = length (Close s) ->
  (length (market_return (calculate_returns s cost)) = length (Close s) /\
   length (position_change (calculate_returns s cost)) = length (Close s) /\
   length (transaction_costs (calculate_returns s cost)) = length (Close s) /\
   length (strategy_return (calculate_returns s cost)) = length (Close s) /\
   length (market_cumulative (calculate_returns s cost)) = length (Close s) /\
   length (strategy_cumulative (calculate_returns s cost)) = length (Close s)) /\
  (Close s <> [] ->
   market_return (calculate_returns s cost) !! 0%nat = Some NaN /\
   position_change (calculate_returns s cost) !! 0%nat = Some NaN /\
   transaction_costs (calculate_returns s cost) !! 0%nat = Some NaN /\
   strategy_return (calculate_returns s cost) !! 0%nat = Some NaN /\
   market_cumulative (calculate_returns s cost) !! 0%nat = Some NaN /\
   strategy_cumulative (calculate_returns s cost) !! 0%nat = Some NaN).
Proof.
  intros Hlen. split.
  - apply calculate_returns_lengths, Hlen.
  - apply calculate_returns_first_row, Hlen.
Qed.

Lemma calculate_returns_shape_witness :
  length (strategy_return (calculate_returns sample_frame default_transaction_cost)) = 3%nat /\
  strategy_return (calculate_returns sample_frame default_transaction_cost) !! 0%nat = Some NaN.
Proof.
  destruct (calculate_returns_shape sample_frame default_transaction_cost eq_refl)
    as [(_ & _ & _ & Hl & _) Hrow].
  split; [exact Hl|]. apply Hrow. discriminate.
Defined.

(** X4.  The transaction cost of a step is the cost rate times the size of
    the position change; a step on which the position does not change costs
    nothing. *)
Theorem transaction_cost_of_step (s : signals_frame) (cost : Q) (i : nat) (p p' : Q) :
  position s !! i = Some p -> position s !! S i = Some p' ->
  exists c, transaction_costs (calculate_returns s cost) !! S i = Some (Fin c) /\
            c == cost * Qabs (p' - p) /\
            (p' == p -> c == 0).
Proof.
  intros Hp Hp'. eexists. split; [apply transaction_costs_lookup; eassumption|].
  split.
  - unfold Qminus. ring.
  - intros E. rewrite E. assert (Hz : p + - p == 0) by ring.
    rewrite Hz. change (Qabs 0) with 0. ring.
Qed.

Lemma transaction_cost_of_step_witness :
  exists c, transaction_costs (calculate_returns sample_frame default_transaction_cost) !! 2%nat
            = Some (Fin c) /\ c == 0.
Proof.
  destruct (transaction_cost_of_step sample_frame default_transaction_cost 1 1 1 eq_refl eq_refl)
    as (c & Hc & _ & Hz).
  exists c. split; [exact Hc|]. apply Hz. reflexivity.
Defined.

End ReturnsShape.

Section MetricsEdges.
Import SingleAsset.
Variable np_sqrt : fval -> fval.
Variable np_power : fval -> Q -> fval.

Lemma metrics_raise_no_rows (s : signals_frame) (cost : Q) :
  Close s = [] ->
  calculate_metrics np_sqrt np_power (calculate_returns s cost) = Raise IndexError.
Proof.
  intros Hc. unfold calculate_metrics, calculate_returns, pct_change. simpl.
  rewrite Hc. simpl. destruct (shift1 (map Fin (position s))); reflexivity.
Qed.

Lemma metrics_raise_one_row (s : signals_frame) (cost : Q) :
  length (Close s) = 1%nat -> length (position s) = 1%nat ->
  calculate_metrics np_sqrt np_power (calculate_returns s cost) = Raise ZeroDivisionError.
Proof.
  intros Hc Hp. unfold calculate_metrics, calculate_returns, pct_change, diff. simpl.
  destruct (Close s) as [|c [|? ?]]; try discriminate.
  destruct (position s) as [|p [|? ?]]; try discriminate.
  reflexivity.
Qed.

Lemma dropna_all (l : list fval) :
  Forall (fun x => is_nan x = false) l -> dropna l = l.
Proof.
  unfold dropna. induction 1 as [|x l Hx _ IH]; [reflexivity|].
  rewrite filter_cons. destruct (decide (is_nan x = false)); [|contradiction].
  now rewrite IH.
Qed.

Lemma dropna_first_row (l : list fval) :
  l !! 0%nat = Some NaN ->
  (forall i x, l !! S i = Some x -> is_nan x = false) ->
  S (length (dropna l)) = length l.
Proof.
  destruct l as [|x l]; [discriminate|]. intros [= ->] Hrest.
  unfold dropna. rewrite filter_cons.
  destruct (decide (is_nan NaN = false)) as [E|_]; [discriminate E|].
  fold (dropna l). rewrite dropna_all; [reflexivity|].
  apply Forall_lookup. intros i x Hx. exact (Hrest i x Hx).
Qed.

Lemma market_return_lookup (s : signals_frame) (cost : Q) (i : nat) (c0 c1 : Q) :
  Close s !! i = Some c0 -> Close s !! S i = Some c1 ->
  market_return (calculate_returns s cost) !! S i
  = Some (fsub (fdiv (Fin c1) (Fin c0)) (Fin 1)).
Proof.
  intros H0 H1.
  assert (Hl : (S i < length (map Fin (Close s)))%nat).
  { rewrite length_map. apply lookup_lt_Some in H1. exact H1. }
  unfold calculate_returns, pct_change. simpl.
  rewrite lookup_zip_with, lookup_shift1_S by exact Hl.
  rewrite !lookup_map, H0, H1. reflexivity.
Qed.

Lemma fdiv_nonzero (a b : Q) : ~ b == 0 -> fdiv (Fin a) (Fin b) = Fin (a / b).
Proof.
  intros Hb. simpl. destruct (Qeq_bool b 0) eqn:E; [|reflexivity].
  apply Qeq_bool_iff in E. contradiction.
Qed.

(** With closes different from zero every return after the first row is a
    number. *)
Lemma returns_defined_after_first_row (s : signals_frame) (cost : Q) :
  length (position s) = length (Close s) ->
  Forall (fun c => ~ c == 0) (Close s) ->
  forall i x,
    (market_return (calculate_returns s cost) !! S i = Some x -> is_nan x = false) /\
    (strategy_return (calculate_returns s cost) !! S i = Some x -> is_nan x = false).
Proof.
  intros Hlen Hnz i x.
  destruct (calculate_returns_lengths s cost Hlen) as (Lm & _ & _ & Ls & _ & _).
  assert (Hrow : forall n, (S i < n)%nat -> n = length (Close s) ->
            exists p0 p1 c0 c1,
              position s !! i = Some p0 /\ position s !! S i = Some p1 /\
              Close s !! i = Some c0 /\ Close s !! S i = Some c1 /\ ~ c0 == 0).
  { intros n Hi ->.
    destruct (lookup_lt_is_Some_2 (position s) i) as [p0 Hp0]; [lia|].
    destruct (lookup_lt_is_Some_2 (position s) (S i)) as [p1 Hp1]; [lia|].
    destruct (lookup_lt_is_Some_2 (Close s) i) as [c0 Hc0]; [lia|].
    destruct (lookup_lt_is_Some_2 (Close s) (S i)) as [c1 Hc1]; [lia|].
    exists p0, p1, c0, c1. repeat split; try assumption.
    rewrite Forall_lookup in Hnz. exact (Hnz i c0 Hc0). }
  split; intros Hx.
  - destruct (Hrow (length (Close s))) as (p0 & p1 & c0 & c1 & _ & _ & Hc0 & Hc1 & Hz);
      [apply lookup_lt_Some in Hx; lia | reflexivity |].
    rewrite (market_return_lookup s cost i c0 c1 Hc0 Hc1), fdiv_nonzero in Hx by exact Hz.
    injection Hx as <-. reflexivity.
  - destruct (Hrow (length (Close s))) as (p0 & p1 & c0 & c1 & Hp0 & Hp1 & Hc0 & Hc1 & Hz);
      [apply lookup_lt_Some in Hx; lia | reflexivity |].
    rewrite (strategy_return_lookup s cost i p0 p1 c0 c1 Hp0 Hp1 Hc0 Hc1),
      fdiv_nonzero in Hx by exact Hz.
    injection Hx as <-. reflexivity.
Qed.

Lemma iloc_last_nonempty {A} (l : list A) :
  l <> [] -> exists x, iloc_last l = Ok x.
Proof.
  intros Hne. unfold iloc_last.
  destruct (last l) as [x|] eqn:E; [eauto|].
  apply last_None in E. contradiction.
Qed.

Lemma metrics_return_two_rows (s : signals_frame) (cost : Q) :
  length (position s) = length (Close s) ->
  (2 <= length (Close s))%nat ->
  Forall (fun c => ~ c == 0) (Close s) ->
  exists m, calculate_metrics np_sqrt np_power (calculate_returns s cost) = Ok m.
Proof.
  intros Hlen Hn Hnz.
  destruct (calculate_returns_lengths s cost Hlen) as (Lm & _ & _ & Ls & Lmc & Lsc).
  destruct (calculate_returns_first_row s cost Hlen) as (Fm & _ & _ & Fs & _ & _).
  { intros E. rewrite E in Hn. simpl in Hn. lia. }
  pose proof (dropna_first_row _ Fm
                (fun i x => proj1 (returns_defined_after_first_row s cost Hlen Hnz i x))) as Dm.
  pose proof (dropna_first_row _ Fs
                (fun i x => proj2 (returns_defined_after_first_row s cost Hlen Hnz i x))) as Ds.
  unfold calculate_metrics.
  destruct (iloc_last_nonempty (strategy_cumulative (calculate_returns s cost))) as [ls ->].
  { intros E. rewrite E in Lsc. simpl in Lsc. lia. }
  destruct (iloc_last_nonempty (market_cumulative (calculate_returns s cost))) as [lm ->].
  { intros E. rewrite E in Lmc. simpl in Lmc. lia. }
  cbn [rbind].
  destruct (length (dropna (strategy_return (calculate_returns s cost)))) as [|k] eqn:Ek;
    [lia|].
  cbn [rbind].
  replace (length (dropna (market_return (calculate_returns s cost)))) with (S k) by lia.
  rewrite Nat.eqb_refl.
  destruct ((0 <? S k)%nat && fgt (np_sqrt (sample_var (dropna (market_return (calculate_returns s cost))))) (Fin 0));
    cbn [rbind]; eexists; reflexivity.
Qed.

(** X5.  [calculate_metrics] needs two rows: on a frame without rows it
    raises IndexError, on a frame with one row ZeroDivisionError, and on a
    frame with at least two rows whose closes are all different from zero it
    returns the metrics. *)
Theorem calculate_metrics_needs_two_rows (s : signals_frame) (cost : Q) :
  length (position s) = length (Close s) ->
  (length (Close s) = 0%nat ->
   calculate_metrics np_sqrt np_power (calculate_returns s cost) = Raise IndexError) /\
  (length (Close s) = 1%nat ->
   calculate_metrics np_sqrt np_power (calculate_returns s cost) = Raise ZeroDivisionError) /\
  ((2 <= length (Close s))%nat -> Forall (fun c => ~ c == 0) (Close s) ->
   exists m, calculate_metrics np_sqrt np_power (calculate_returns s cost) = Ok m).
Proof.
  intros Hlen. split; [|split].
  - intros H0. apply metrics_raise_no_rows. destruct (Close s); [reflexivity|discriminate].
  - intros H1. apply metrics_raise_one_row; congruence.
  - intros H2 Hnz. apply metrics_return_two_rows; assumption.
Qed.

Lemma winning_share_range (a b : nat) :
  (a <= S b)%nat ->
  0 <= inject_Z (Z.of_nat a) / inject_Z (Z.of_nat (S b)) <= 1.
Proof.
  intros Hab.
  assert (Hb : 0 < inject_Z (Z.of_nat (S b))).
  { change 0 with (inject_Z 0). rewrite <- Zlt_Qlt. lia. }
  assert (Ha : 0 <= inject_Z (Z.of_nat a)).
  { change 0 with (inject_Z 0). rewrite <- Zle_Qle. lia. }
  assert (Hle : inject_Z (Z.of_nat a) <= inject_Z (Z.of_nat (S b))).
  { rewrite <- Zle_Qle. lia. }
  split.
  - apply Qle_shift_div_l; [exact Hb|]. lra.
  - apply Qle_shift_div_r; [exact Hb|]. lra.
Qed.

Lemma calculate_metrics_win_rate (returns : results_frame) (m : metrics) :
  calculate_metrics np_sqrt np_power returns = Ok m ->
  exists w, win_rate m = Fin w /\ 0 <= w <= 1.
Proof.
  unfold calculate_metrics.
  destruct (iloc_last (strategy_cumulative returns)) as [ls|]; cbn [rbind]; [|discriminate].
  destruct (iloc_last (market_cumulative returns)) as [lm|]; cbn [rbind]; [|discriminate].
  pose proof (length_filter (fun x => fgt x (Fin 0) = true) (dropna (strategy_return returns)))
    as Hf.
  destruct (length (dropna (strategy_return returns))) as [|n] eqn:Hn; cbn [rbind];
    [discriminate|].
  match goal with
  | |- rbind ?b _ = _ -> _ => destruct b as [bt|]; cbn [rbind]; [|discriminate]
  end.
  intros [= <-]. cbn [win_rate Nat.ltb Nat.leb].
  eexists. split; [reflexivity|]. apply winning_share_range. exact Hf.
Qed.

End MetricsEdges.

Section MetricsValues.
Import SingleAsset.
Variable np_sqrt : fval -> fval.
Variable np_power : fval -> Q -> fval.
Variable minimize : (Q * Q * Q -> fval) -> option (Q * Q * Q).

(** X6.  Whenever [calculate_metrics] returns, the win rate is a number
    between 0 and 1; a volatility that is not positive (zero or NaN) gives
    the Sharpe ratio 0; and the beta is 0 when there is no market return or
    the deviation of the market returns is not positive. *)
Theorem calculate_metrics_guarded_values (returns : results_frame) (m : metrics) :
  calculate_metrics np_sqrt np_power returns = Ok m ->
  (exists w, win_rate m = Fin w /\ 0 <= w <= 1) /\
  (fgt (volatility m) (Fin 0) = false -> sharpe_ratio m = Fin 0) /\
  (dropna (market_return returns) = [] -> beta m = Fin 0) /\
  (fgt (np_sqrt (sample_var (dropna (market_return returns)))) (Fin 0) = false ->
   beta m = Fin 0).
Proof.
  intros H. split.
  - exact (calculate_metrics_win_rate np_sqrt np_power returns m H).
  - exact (calculate_metrics_guards np_sqrt np_power returns m H).
Qed.

(** X7.  For periods that pass the guard (1 <= fast < slow, 1 <= signal),
    [objective_function] on a price frame with at most one row scores plus
    infinity: the exception raised by [calculate_metrics] is caught. *)
Theorem objective_function_short_data (p0 p1 p2 : Q) (data : list Q) :
  (1 <= py_int p0 < py_int p1)%Z -> (1 <= py_int p2)%Z ->
  (length data <= 1)%nat ->
  objective_function np_sqrt np_power (p0, p1, p2) data = PInf.
Proof.
  intros Hfs Hg Hlen. unfold objective_function.
  destruct (Z.leb_spec (py_int p1) (py_int p0)); [lia|].
  destruct (Z.ltb_spec (py_int p0) 1); [lia|].
  destruct (Z.ltb_spec (py_int p2) 1); [lia|].
  cbn [orb].
  destruct (generate_signals_total data (py_int p0) (py_int p1) (py_int p2))
    as [s Hs]; [lia | lia | lia |].
  rewrite Hs. cbn [rbind].
  destruct (generate_signals_inv _ _ _ _ _ Hs) as (_ & _ & _ & _ & _ & _ & _ & Hc & _ & _).
  destruct (generate_signals_lengths _ _ _ _ _ Hs) as (_ & _ & _ & Lp).
  destruct data as [|c [|? ?]]; [| |simpl in Hlen; lia].
  - rewrite metrics_raise_no_rows by exact Hc. reflexivity.
  - rewrite metrics_raise_one_row by (rewrite ?Hc; assumption || reflexivity). reflexivity.
Qed.

Lemma length_slice_one_row (a : Z) (l : list Q) :
  (0 <= a)%Z -> (a + 1 <= Z.of_nat (length l))%Z ->
  length (py_slice a (a + 1) l) = 1%nat.
Proof.
  intros Ha Hn. unfold py_slice, slice_bound.
  destruct (Z.ltb_spec a 0); [lia|]. destruct (Z.ltb_spec (a + 1) 0); [lia|].
  rewrite !Z.min_l by lia. rewrite length_firstn, length_skipn. lia.
Qed.

Lemma walk_forward_step_one_row (data : list Q) (w : window) :
  length (py_slice (test_start w) (test_end w) data) = 1%nat ->
  exists e, walk_forward_step np_sqrt np_power minimize data w = Raise e /\
            (e = ValueError \/ e = ZeroDivisionError).
Proof.
  intros Hone. unfold walk_forward_step.
  destruct (optimize_parameters np_sqrt np_power minimize
              (py_slice (opt_start w) (opt_end w) data) 252) as [[fast slow] sg].
  destruct (generate_signals (py_slice (test_start w) (test_end w) data) fast slow sg)
    as [s|e] eqn:Hs; cbn [rbind].
  - destruct (generate_signals_inv _ _ _ _ _ Hs) as (_ & _ & _ & _ & _ & _ & _ & Hc & _ & _).
    destruct (generate_signals_lengths _ _ _ _ _ Hs) as (_ & _ & _ & Lp).
    destruct (iloc_last_nonempty (py_slice (test_start w) (test_end w) data)) as [x ->].
    { intros E. rewrite E in Hone. discriminate. }
    cbn [rbind].
    destruct (calculate_returns_lengths s default_transaction_cost) as (_ & _ & _ & _ & _ & Lsc);
      [rewrite Hc; lia|].
    destruct (iloc_last_nonempty (strategy_cumulative (calculate_returns s default_transaction_cost)))
      as [r ->].
    { intros E. rewrite E, Hc, Hone in Lsc. discriminate. }
    cbn [rbind].
    rewrite metrics_raise_one_row by (rewrite ?Hc; lia).
    cbn [rbind]. eauto.
  - exists e. split; [reflexivity|].
    unfold generate_signals, calculate_macd, ewm_mean in Hs.
    destruct (fast <? 1)%Z; [injection Hs as <-; auto|].
    destruct (slow <? 1)%Z; [injection Hs as <-; auto|].
    cbn [rbind] in Hs.
    destruct (sg <? 1)%Z; [injection Hs as <-; auto|]. discriminate.
Qed.

(** X9.  With a test window of a single row the walk-forward analysis never
    returns a result once there is a window to visit: the first pass raises,
    ZeroDivisionError from [calculate_metrics] on the one-row test frame, or
    ValueError when the optimizer's periods are below one. *)
Theorem walk_forward_one_row_test_window (data : list Q) (optimization_window : Z) :
  (0 <= optimization_window)%Z ->
  (optimization_window + 1 < Z.of_nat (length data))%Z ->
  exists e,
    walk_forward_analysis np_sqrt np_power minimize data optimization_window 1 = Raise e /\
    (e = ValueError \/ e = ZeroDivisionError).
Proof.
  intros Ho Hn. unfold walk_forward_analysis.
  destruct (walk_forward_windows_spec (Z.of_nat (length data)) optimization_window 1)
    as (ws & -> & Hw & _ & Hall); [lia|].
  cbn [rbind].
  destruct (Hall 0%nat) as [w Ew]; [simpl; lia|].
  destruct ws as [|w0 ws]; [discriminate|]. injection Ew as ->.
  destruct (Hw 0%nat w eq_refl) as (A1 & A2 & A3 & A4 & A5).
  cbn [walk_forward_loop].
  destruct (walk_forward_step_one_row data w) as (e & -> & He).
  - rewrite A4, A3, A2, A1. apply length_slice_one_row; simpl; lia.
  - cbn [rbind]. eauto.
Qed.

(** X8.  For a positive test window the loop header of the walk-forward
    analysis visits the starts 0, test_window, 2 * test_window, ...: each
    pass has an optimization window of full length that ends where its test
    window begins, a test window of full length that ends before the last
    row, and the next test window begins where this one ends; there is a
    pass for every start with start + optimization_window + test_window < n.
    A test window of zero raises ValueError. *)
Theorem walk_forward_windows_consecutive (n optimization_window test_window : Z) :
  (test_window = 0%Z ->
   walk_forward_windows n optimization_window test_window = Raise ValueError) /\
  ((0 < test_window)%Z ->
   exists ws,
     walk_forward_windows n optimization_window test_window = Ok ws /\
     (forall k w, ws !! k = Some w ->
        opt_start w = (Z.of_nat k * test_window)%Z /\
        opt_end w = (opt_start w + optimization_window)%Z /\
        test_start w = opt_end w /\
        test_end w = (test_start w + test_window)%Z /\
        (test_end w < n)%Z) /\
     (forall k w w', ws !! k = Some w -> ws !! S k = Some w' -> test_start w' = test_end w) /\
     (forall k : nat,
        (Z.of_nat k * test_window + optimization_window + test_window < n)%Z ->
        is_Some (ws !! k))).
Proof.
  split.
  - intros ->. reflexivity.
  - apply walk_forward_windows_spec.
Qed.

End MetricsValues.

Lemma calculate_metrics_needs_two_rows_witness :
  exists m, SingleAsset.calculate_metrics (fun x => x) (fun x _ => x)
              (SingleAsset.calculate_returns sample_frame SingleAsset.default_transaction_cost)
            = Ok m.
Proof.
  apply (proj2 (proj2 (calculate_metrics_needs_two_rows (fun x => x) (fun x _ => x)
                         sample_frame SingleAsset.default_transaction_cost eq_refl))).
  - simpl. lia.
  - repeat constructor; intros H; discriminate H.
Defined.

Lemma calculate_metrics_guarded_values_witness :
  exists m w, SingleAsset.calculate_metrics (fun x => x) (fun x _ => x)
                (SingleAsset.calculate_returns sample_frame SingleAsset.default_transaction_cost)
              = Ok m /\ SingleAsset.win_rate m = Fin w /\ 0 <= w <= 1.
Proof.
  assert (H : exists m, SingleAsset.calculate_metrics (fun x => x) (fun x _ => x)
                (SingleAsset.calculate_returns sample_frame SingleAsset.default_transaction_cost)
              = Ok m).
  { eexists. vm_compute. reflexivity. }
  destruct H as [m H].
  destruct (calculate_metrics_guarded_values (fun x => x) (fun x _ => x) _ m H)
    as [(w & Hw & Hr) _].
  exists m, w. repeat split; try assumption; apply Hr.
Defined.

Lemma objective_function_short_data_witness :
  SingleAsset.objective_function (fun x => x) (fun x _ => x) (12, 26, 9) [100] = PInf.
Proof.
  apply objective_function_short_data; [vm_compute; split; [discriminate | reflexivity]
                                       | vm_compute; discriminate | simpl; lia].
Defined.

Lemma walk_forward_one_row_test_window_witness :
  exists e, SingleAsset.walk_forward_analysis (fun x => x) (fun x _ => x) (fun _ => None)
              [100; 101; 102; 103] 2 1 = Raise e.
Proof.
  destruct (walk_forward_one_row_test_window (fun x => x) (fun x _ => x) (fun _ => None)
              [100; 101; 102; 103] 2) as (e & He & _); [lia | simpl; lia |].
  exists e. exact He.
Defined.

Lemma walk_forward_windows_consecutive_witness :
  exists ws, SingleAsset.walk_forward_windows 400 252 63 = Ok ws /\ is_Some (ws !! 1%nat).
Proof.
  destruct (proj2 (walk_forward_windows_consecutive 400 252 63)) as (ws & Hw & _ & _ & Hall);
    [lia|].
  exists ws. split; [exact Hw|]. apply Hall. simpl. lia.
Defined.

(** * Further properties of the multi-asset algorithms *)

Section SizingRegimes.
Variable np_sqrt : Q -> Q.

(** The sizing rule in closed form: the cap of 2 has no effect, because the
    size is cut back to the maximum afterwards. *)
Lemma sizing_regimes (max_size vol : Q) :
  0 <= max_size ->
  (vol <= 15 # 100 ->
   py_min (max_size * py_min ((15 # 100) / py_max vol (5 # 100)) 2) max_size == max_size) /\
  (15 # 100 < vol ->
   py_min (max_size * py_min ((15 # 100) / py_max vol (5 # 100)) 2) max_size
   == max_size * ((15 # 100) / vol)).
Proof.
  intros Hmax. split; intros Hvol.
  - assert (Hm : 0 < py_max vol (5 # 100) /\ py_max vol (5 # 100) <= 15 # 100).
    { unfold py_max. destruct (Qlt_le_dec vol (5 # 100)); lra. }
    destruct Hm as [Hm0 Hm1].
    assert (Hq : 1 <= (15 # 100) / py_max vol (5 # 100)).
    { apply Qle_shift_div_l; lra. }
    assert (Hva : 1 <= py_min ((15 # 100) / py_max vol (5 # 100)) 2).
    { unfold py_min. destruct (Qlt_le_dec 2 ((15 # 100) / py_max vol (5 # 100))); lra. }
    set (va := py_min ((15 # 100) / py_max vol (5 # 100)) 2) in *.
    unfold py_min. destruct (Qlt_le_dec max_size (max_size * va)); [reflexivity|]. nra.
  - assert (Hm : py_max vol (5 # 100) = vol).
    { unfold py_max. destruct (Qlt_le_dec vol (5 # 100)); [lra|reflexivity]. }
    rewrite Hm.
    assert (Hq0 : 0 < (15 # 100) / vol) by (apply Qlt_shift_div_l; lra).
    assert (Hq1 : (15 # 100) / vol < 1) by (apply Qlt_shift_div_r; lra).
    assert (Hva : py_min ((15 # 100) / vol) 2 = (15 # 100) / vol).
    { unfold py_min. destruct (Qlt_le_dec 2 ((15 # 100) / vol)); [lra|reflexivity]. }
    rewrite Hva. set (q := (15 # 100) / vol) in *.
    unfold py_min. destruct (Qlt_le_dec max_size (max_size * q)); [nra|reflexivity].
Qed.

(** X10.  [CalculatePositionSize] in three regimes, for a non-negative
    [max_position_size]: with fewer recorded returns than the volatility
    window it returns [max_position_size]; otherwise it returns
    [max_position_size] while the annualised volatility of the window is at
    most 15 percent, and [max_position_size * 0.15 / volatility] above that.
    The factor never exceeds one: the cap of 2 does not come into play.  A
    symbol without an entry raises KeyError. *)
Theorem position_size_regimes (self : EnhancedETF.algorithm) (symbol_str : string)
    (signal : Q) :
  (EnhancedETF.etfs self !! symbol_str = None ->
   EnhancedETF.CalculatePositionSize np_sqrt self symbol_str signal = Raise KeyError) /\
  (forall etf, EnhancedETF.etfs self !! symbol_str = Some etf ->
     (Z.of_nat (length (EnhancedETF.returns etf)) < EnhancedETF.volatility_window self)%Z ->
     EnhancedETF.CalculatePositionSize np_sqrt self symbol_str signal
     = Ok (EnhancedETF.max_position_size self)) /\
  (forall etf, EnhancedETF.etfs self !! symbol_str = Some etf ->
     (1 <= EnhancedETF.volatility_window self
        <= Z.of_nat (length (EnhancedETF.returns etf)))%Z ->
     0 <= EnhancedETF.max_position_size self ->
     exists size,
       EnhancedETF.CalculatePositionSize np_sqrt self symbol_str signal = Ok size /\
       let vol := annual_volatility np_sqrt
                    (skipn (length (EnhancedETF.returns etf)
                            - Z.to_nat (EnhancedETF.volatility_window self))
                           (EnhancedETF.returns etf)) in
       (vol <= 15 # 100 -> size == EnhancedETF.max_position_size self) /\
       (15 # 100 < vol -> size == EnhancedETF.max_position_size self * ((15 # 100) / vol)) /\
       0 <= size).
Proof.
  split; [|split].
  - intros He. unfold EnhancedETF.CalculatePositionSize, EnhancedETF.etf_of.
    rewrite He. reflexivity.
  - intros etf He Hlt. unfold EnhancedETF.CalculatePositionSize, EnhancedETF.etf_of.
    rewrite He. simpl.
    destruct (Z.ltb_spec (Z.of_nat (length (EnhancedETF.returns etf)))
                         (EnhancedETF.volatility_window self)); [reflexivity|lia].
  - intros etf He Hvw Hmax.
    unfold EnhancedETF.CalculatePositionSize, EnhancedETF.etf_of. rewrite He. simpl.
    destruct (Z.ltb_spec (Z.of_nat (length (EnhancedETF.returns etf)))
                         (EnhancedETF.volatility_window self)); [lia|].
    eexists. split; [reflexivity|]. rewrite slice_last by exact Hvw.
    fold (EnhancedETF.np_std np_sqrt). unfold EnhancedETF.np_std.
    fold (annual_volatility np_sqrt
            (skipn (length (EnhancedETF.returns etf)
                    - Z.to_nat (EnhancedETF.volatility_window self))
                   (EnhancedETF.returns etf))).
    set (vol := annual_volatility _ _).
    destruct (sizing_regimes (EnhancedETF.max_position_size self) vol Hmax) as [Hlo Hhi].
    split; [exact Hlo|]. split; [exact Hhi|].
    destruct (Qlt_le_dec (15 # 100) vol) as [Hv|Hv].
    + rewrite (Hhi Hv).
      assert (0 < (15 # 100) / vol) by (apply Qlt_shift_div_l; lra). nra.
    + rewrite (Hlo Hv). exact Hmax.
Qed.

End SizingRegimes.

Lemma position_size_regimes_witness :
  exists size,
    EnhancedETF.CalculatePositionSize (fun q => q) drawdown_enhanced "SPY" 1 = Ok size /\
    0 <= size.
Proof.
  destruct (proj2 (proj2 (position_size_regimes (fun q => q) drawdown_enhanced "SPY"%string 1))
              spy_two_returns eq_refl) as (size & Hs & _ & _ & Hpos).
  - simpl. lia.
  - discriminate.
  - exists size. split; [exact Hs | exact Hpos].
Defined.

Section PortfolioMetrics.





End PortfolioMetrics.

Section SignalFilters.
Variable np_sqrt : Q -> Q.

Lemma Qlt_bool_iff (a b : Q) : Qlt_bool a b = true <-> a < b.
Proof.
  unfold Qlt_bool. destruct (Qle_bool b a) eqn:E; simpl.
  - apply Qle_bool_iff in E. split; [discriminate|lra].
  - split; [|reflexivity]. intros _.
    destruct (Qlt_le_dec a b) as [H|H]; [exact H|].
    apply Qle_bool_iff in H. congruence.
Qed.

Lemma dampened_range (signal v : Q) :
  dampened signal v ->
  (0 <= signal -> 0 <= v <= signal) /\ (signal <= 0 -> signal <= v <= 0).
Proof. intros [-> | [-> | ->]]; split; intros H; lra. Qed.

Lemma ApplyAdditionalFilters_dampened (self : EnhancedETF.algorithm) (symbol_str : string)
    (signal : Q) (etf : EnhancedETF.etf_data) :
  EnhancedETF.etfs self !! symbol_str = Some etf ->
  exists v, EnhancedETFRun.ApplyAdditionalFilters np_sqrt self symbol_str signal = Ok v /\
            dampened signal v.
Proof.
  intros He. unfold EnhancedETFRun.ApplyAdditionalFilters, EnhancedETF.etf_of, dampened.
  rewrite He. cbn [rbind].
  repeat match goal with
         | |- context [if ?b then _ else _] => destruct b
         end; eexists; split; try reflexivity; auto.
Qed.

(** X12.  [ApplyAdditionalFilters] only dampens: for an ETF that has an
    entry it returns the signal, half of it, or zero, so the result has the
    sign of the signal and at most its size; with at least 20 closes a buy is
    zeroed when the last close is more than 2 percent under their 20-day
    mean.  A symbol without an entry raises KeyError. *)
Theorem additional_filters_dampen (self : EnhancedETF.algorithm) (symbol_str : string)
    (signal : Q) :
  (EnhancedETF.etfs self !! symbol_str = None ->
   EnhancedETFRun.ApplyAdditionalFilters np_sqrt self symbol_str signal = Raise KeyError) /\
  (forall etf, EnhancedETF.etfs self !! symbol_str = Some etf ->
     exists v,
       EnhancedETFRun.ApplyAdditionalFilters np_sqrt self symbol_str signal = Ok v /\
       (v = signal \/ v = signal * (1 # 2) \/ v = 0) /\
       (0 <= signal -> 0 <= v <= signal) /\
       (signal <= 0 -> signal <= v <= 0) /\
       ((20 <= length (EnhancedETF.price_history etf))%nat -> 0 < signal ->
        nth (length (EnhancedETF.price_history etf) - 1) (EnhancedETF.price_history etf) 0
        < np_mean (py_slice_from (-20) (EnhancedETF.price_history etf)) * (98 # 100) ->
        v = 0)).
Proof.
  split.
  - intros He. unfold EnhancedETFRun.ApplyAdditionalFilters, EnhancedETF.etf_of.
    rewrite He. reflexivity.
  - intros etf He.
    destruct (ApplyAdditionalFilters_dampened self symbol_str signal etf He) as (v & Hv & Hd).
    exists v. split; [exact Hv|]. split; [exact Hd|].
    destruct (dampened_range signal v Hd) as [Hpos Hneg].
    split; [exact Hpos|]. split; [exact Hneg|].
    intros Hlen Hs Hprice. revert Hv.
    unfold EnhancedETFRun.ApplyAdditionalFilters, EnhancedETF.etf_of.
    rewrite He. cbn [rbind].
    destruct (Nat.leb_spec 20 (length (EnhancedETF.price_history etf))); [|lia].
    match goal with
    | |- context [Qlt_bool 0 ?s1 && Qlt_bool ?c ?m] =>
        assert (H1 : Qlt_bool 0 s1 = true);
        [| assert (H2 : Qlt_bool c m = true) by (apply Qlt_bool_iff; exact Hprice);
           rewrite H1, H2 ]
    end.
    + apply Qlt_bool_iff.
      repeat match goal with
             | |- context [if ?b then _ else _] => destruct b
             end; lra.
    + cbn [andb]. intros [= <-]. reflexivity.
Qed.

End SignalFilters.

Lemma additional_filters_dampen_witness :
  exists v, EnhancedETFRun.ApplyAdditionalFilters (fun q => q) drawdown_enhanced "SPY" 1 = Ok v /\
            0 <= v <= 1.
Proof.
  destruct (proj2 (additional_filters_dampen (fun q => q) drawdown_enhanced "SPY"%string 1)
              spy_two_returns eq_refl) as (v & Hv & _ & Hr & _).
  exists v. split; [exact Hv|]. apply Hr. discriminate.
Defined.

Section SignalGeneration.
Variable np_sqrt : Q -> Q.

(** X13.  [GenerateSignal] of the enhanced algorithm.  While the MACD or the
    signal line of the ETF is unset it returns 0 and changes nothing.
    Otherwise the signal it returns is stored as the ETF's [last_signal];
    every other field of the ETF (position, MACD, signal line, both averages,
    parameters, price history, returns), every other ETF and the settings of
    the algorithm stay as they were; and when the held position is within
    [-1, 1] so is the signal. *)
Theorem generate_signal_stored (self : EnhancedETF.algorithm) (symbol_str : string)
    (etf : EnhancedETF.etf_data) :
  EnhancedETF.etfs self !! symbol_str = Some etf ->
  (EnhancedETF.macd etf = None \/ EnhancedETF.signal_line etf = None ->
   EnhancedETFRun.GenerateSignal np_sqrt self symbol_str = Ok (0, self)) /\
  (is_Some (EnhancedETF.macd etf) -> is_Some (EnhancedETF.signal_line etf) ->
   exists signal self' etf',
     EnhancedETFRun.GenerateSignal np_sqrt self symbol_str = Ok (signal, self') /\
     EnhancedETF.etfs self' !! symbol_str = Some etf' /\
     EnhancedETF.last_signal etf' = signal /\
     EnhancedETF.position etf' = EnhancedETF.position etf /\
     EnhancedETF.macd etf' = EnhancedETF.macd etf /\
     EnhancedETF.signal_line etf' = EnhancedETF.signal_line etf /\
     EnhancedETF.optimal_params etf' = EnhancedETF.optimal_params etf /\
     EnhancedETF.price_history etf' = EnhancedETF.price_history etf /\
     EnhancedETF.returns etf' = EnhancedETF.returns etf /\
     (forall other, other <> symbol_str ->
        EnhancedETF.etfs self' !! other = EnhancedETF.etfs self !! other) /\
     (-1 <= EnhancedETF.position etf <= 1 -> -1 <= signal <= 1) /\
     EnhancedETF.ema_fast etf' = EnhancedETF.ema_fast etf /\
     EnhancedETF.ema_slow etf' = EnhancedETF.ema_slow etf /\
     EnhancedETF.max_position_size self' = EnhancedETF.max_position_size self /\
     EnhancedETF.max_drawdown self' = EnhancedETF.max_drawdown self /\
     EnhancedETF.drawdown self' = EnhancedETF.drawdown self /\
     EnhancedETF.volatility_window self' = EnhancedETF.volatility_window self /\
     EnhancedETF.min_history_for_optimization self'
     = EnhancedETF.min_history_for_optimization self).
Proof.
  intros He. split.
  - intros Hnone. unfold EnhancedETFRun.GenerateSignal, EnhancedETF.etf_of.
    rewrite He. cbn [rbind].
    destruct Hnone as [-> | ->]; [reflexivity|].
    destruct (EnhancedETF.macd etf); reflexivity.
  - intros [m Hm] [sl Hs]. unfold EnhancedETFRun.GenerateSignal, EnhancedETF.etf_of.
    rewrite He. cbn [rbind]. rewrite Hm, Hs.
    set (raw := if Qlt_bool sl m && Qle_bool (EnhancedETF.last_signal etf) 0 then 1
                else if Qlt_bool m sl && Qle_bool 0 (EnhancedETF.last_signal etf) then -1
                     else EnhancedETF.position etf).
    destruct (ApplyAdditionalFilters_dampened np_sqrt self symbol_str raw etf He)
      as (v & Hv & Hd).
    rewrite Hv. cbn [rbind].
    do 3 eexists. split; [reflexivity|].
    split; [apply lookup_insert_eq|].
    repeat (split; [reflexivity|]).
    split.
    + intros other Hne. simpl. apply lookup_insert_ne. congruence.
    + split; [|repeat split; reflexivity].
      intros Hpos.
      assert (Hraw : -1 <= raw <= 1).
      { unfold raw. repeat match goal with
                           | |- context [if ?b then _ else _] => destruct b
                           end; lra. }
      destruct (dampened_range raw v Hd) as [Hp Hn].
      destruct (Qlt_le_dec raw 0) as [Hr|Hr]; [specialize (Hn ltac:(lra)) | specialize (Hp Hr)];
        lra.
Qed.

(** X14.  [GenerateSignal] of the simplified algorithm returns one of the
    five values -1, -1/2, 0, 1/2, 1 for an ETF that has an entry, and 0 while
    an indicator is not ready; a buy is never returned with the RSI above 70
    nor a sell with the RSI below 30.  A symbol without an entry raises
    KeyError. *)
Theorem simple_signal_values (self : SimpleETF.algorithm) (symbol_str : string)
    (r : SimpleETFRun.readings) :
  (SimpleETF.etfs self !! symbol_str = None ->
   SimpleETFRun.GenerateSignal np_sqrt self symbol_str r = Raise KeyError) /\
  (forall etf, SimpleETF.etfs self !! symbol_str = Some etf ->
     exists v,
       SimpleETFRun.GenerateSignal np_sqrt self symbol_str r = Ok v /\
       (v == -1 \/ v == -(1 # 2) \/ v == 0 \/ v == 1 # 2 \/ v == 1) /\
       (SimpleETFRun.indicators_ready r = false -> v = 0) /\
       (70 < SimpleETFRun.rsi_value r -> v <= 0) /\
       (SimpleETFRun.rsi_value r < 30 -> 0 <= v)).
Proof.
  split.
  - intros He. unfold SimpleETFRun.GenerateSignal, SimpleETF.etf_of. rewrite He. reflexivity.
  - intros etf He.
    unfold SimpleETFRun.GenerateSignal, SimpleETFRun.ApplyFilters, SimpleETF.etf_of.
    rewrite He. cbn [rbind].
    destruct (SimpleETFRun.indicators_ready r); cbn [negb].
    + destruct (Qlt_bool 70 (SimpleETFRun.rsi_value r)) eqn:E70;
        destruct (Qlt_bool (SimpleETFRun.rsi_value r) 30) eqn:E30;
        repeat match goal with
               | |- context [if ?b then _ else _] => destruct b eqn:?
               end;
        eexists; (split; [reflexivity|]);
        repeat match goal with
               | H : Qlt_bool _ _ = true |- _ => apply Qlt_bool_iff in H
               | H : (_ && _)%bool = true |- _ => apply andb_prop in H; destruct H
               end;
        (split; [lra|]); (split; [discriminate|]);
        assert (H70 : 70 < SimpleETFRun.rsi_value r -> Qlt_bool 70 (SimpleETFRun.rsi_value r) = true)
          by (apply Qlt_bool_iff);
        assert (H30 : SimpleETFRun.rsi_value r < 30 -> Qlt_bool (SimpleETFRun.rsi_value r) 30 = true)
          by (apply Qlt_bool_iff);
        split; intros Hrsi; try lra;
        try (specialize (H70 Hrsi); congruence); try (specialize (H30 Hrsi); congruence);
        try (exfalso; match goal with
                      | H : (_ && true)%bool = false |- _ => discriminate H
                      end).
    + exists 0. split; [reflexivity|]. split; [lra|]. split; [reflexivity|]. split; intros; lra.
Qed.

End SignalGeneration.

Section IndicatorUpdate.
Import EnhancedETF.

Lemma CalculateEMA_in_range (prices : list Q) (period : Z) :
  (1 <= period <= Z.of_nat (length prices))%Z ->
  exists e, CalculateEMA prices period = Ok (Some e) /\
            Qlist_min prices <= e <= Qlist_max prices.
Proof.
  intros [Hp Hlen]. unfold CalculateEMA.
  destruct (Z.ltb_spec (Z.of_nat (length prices)) period); [lia|].
  destruct (Z.eqb_spec period (-1)); [lia|].
  destruct prices as [|p0 rest]; [simpl in Hlen; lia|].
  eexists. split; [reflexivity|].
  destruct (multiplier_range period Hp) as [Hm0 Hm1].
  pose proof (Qlist_bounds (p0 :: rest)) as Hb. inversion Hb; subst.
  apply ema_fold_between; try assumption. lra.
Qed.

(** What a call that returns leaves as it was. *)
Lemma UpdateMACDIndicators_frame (self self' : algorithm) (symbol_str : string) (price : Q) :
  UpdateMACDIndicators self symbol_str price = Ok self' ->
  max_position_size self' = max_position_size self /\
  max_drawdown self' = max_drawdown self /\
  drawdown self' = drawdown self /\
  volatility_window self' = volatility_window self /\
  min_history_for_optimization self' = min_history_for_optimization self /\
  (forall other, other <> symbol_str -> etfs self' !! other = etfs self !! other) /\
  exists etf etf',
    etfs self !! symbol_str = Some etf /\ etfs self' !! symbol_str = Some etf' /\
    price_history etf' = price_history etf /\ returns etf' = returns etf /\
    position etf' = position etf /\ last_signal etf' = last_signal etf /\
    optimal_params etf' = optimal_params etf.
Proof.
  unfold UpdateMACDIndicators, etf_of.
  destruct (etfs self !! symbol_str) as [etf|] eqn:He; cbn [rbind]; [|discriminate].
  destruct (optimal_params etf) as [[fast slow] sp] eqn:Hparams.
  assert (Hsame : Ok self = Ok self' ->
            max_position_size self' = max_position_size self /\
            max_drawdown self' = max_drawdown self /\
            drawdown self' = drawdown self /\
            volatility_window self' = volatility_window self /\
            min_history_for_optimization self' = min_history_for_optimization self /\
            (forall other, other <> symbol_str -> etfs self' !! other = etfs self !! other) /\
            exists etf0 etf',
              Some etf = Some etf0 /\ etfs self' !! symbol_str = Some etf' /\
              price_history etf' = price_history etf0 /\ returns etf' = returns etf0 /\
              position etf' = position etf0 /\ last_signal etf' = last_signal etf0 /\
              optimal_params etf' = optimal_params etf0).
  { intros [= <-]. do 5 (split; [reflexivity|]).
    split; [intros; reflexivity|]. exists etf, etf. rewrite He. repeat split; reflexivity. }
  destruct (slow <=? Z.of_nat (length (price_history etf)))%Z; [|exact Hsame].
  destruct (CalculateEMA (price_history etf) fast) as [[f|]|];
    destruct (CalculateEMA (price_history etf) slow) as [[s|]|]; cbn [rbind];
    try discriminate; try exact Hsame.
  intros [= <-]. cbn.
  do 5 (split; [reflexivity|]).
  split.
  - intros other Hne. apply lookup_insert_ne. congruence.
  - eexists _, _. split; [reflexivity|]. split; [apply lookup_insert_eq|].
    cbn. rewrite Hparams. repeat split; reflexivity.
Qed.

(** X15.  [UpdateMACDIndicators] on the ETF [symbol_str].  Without an entry
    it raises KeyError.  With fewer closes than the slow period nothing is
    changed.  A call that returns leaves every other ETF, the algorithm's
    settings and the ETF's closes, returns, position, last signal and
    parameters as they were.  With 1 <= fast <= slow <= number of closes both
    averages are set to what [CalculateEMA] returns for the fast and the slow
    period, and the MACD value to their difference. *)
Theorem update_indicators_effect (self : algorithm) (symbol_str : string) (price : Q) :
  (etfs self !! symbol_str = None ->
   UpdateMACDIndicators self symbol_str price = Raise KeyError) /\
  (forall etf fast slow sp,
     etfs self !! symbol_str = Some etf -> optimal_params etf = (fast, slow, sp) ->
     (Z.of_nat (length (price_history etf)) < slow)%Z ->
     UpdateMACDIndicators self symbol_str price = Ok self) /\
  (forall self', UpdateMACDIndicators self symbol_str price = Ok self' ->
     max_position_size self' = max_position_size self /\
     max_drawdown self' = max_drawdown self /\
     drawdown self' = drawdown self /\
     volatility_window self' = volatility_window self /\
     min_history_for_optimization self' = min_history_for_optimization self /\
     (forall other, other <> symbol_str -> etfs self' !! other = etfs self !! other) /\
     exists etf etf',
       etfs self !! symbol_str = Some etf /\ etfs self' !! symbol_str = Some etf' /\
       price_history etf' = price_history etf /\ returns etf' = returns etf /\
       position etf' = position etf /\ last_signal etf' = last_signal etf /\
       optimal_params etf' = optimal_params etf) /\
  (forall etf fast slow sp,
     etfs self !! symbol_str = Some etf -> optimal_params etf = (fast, slow, sp) ->
     (1 <= fast <= slow)%Z -> (slow <= Z.of_nat (length (price_history etf)))%Z ->
     exists self' etf' ef es,
       UpdateMACDIndicators self symbol_str price = Ok self' /\
       etfs self' !! symbol_str = Some etf' /\
       ema_fast etf' = Some ef /\ ema_slow etf' = Some es /\
       macd etf' = Some (ef - es) /\
       CalculateEMA (price_history etf) fast = Ok (Some ef) /\
       CalculateEMA (price_history etf) slow = Ok (Some es)).
Proof.
  split; [|split; [|split]].
  - intros He. unfold UpdateMACDIndicators, etf_of. rewrite He. reflexivity.
  - intros etf fast slow sp He Hp Hlt. unfold UpdateMACDIndicators, etf_of.
    rewrite He. cbn [rbind]. rewrite Hp.
    destruct (Z.leb_spec slow (Z.of_nat (length (price_history etf)))); [lia|reflexivity].
  - intros self'. apply UpdateMACDIndicators_frame.
  - intros etf fast slow sp He Hp Hfs Hlen. unfold UpdateMACDIndicators, etf_of.
    rewrite He. cbn [rbind]. rewrite Hp.
    destruct (Z.leb_spec slow (Z.of_nat (length (price_history etf)))); [|lia].
    destruct (CalculateEMA_in_range (price_history etf) fast) as (ef & -> & _); [lia|].
    destruct (CalculateEMA_in_range (price_history etf) slow) as (es & -> & _); [lia|].
    cbn [rbind]. do 4 eexists. split; [reflexivity|].
    split; [apply lookup_insert_eq|].
    repeat split; reflexivity.
Qed.

Lemma update_indicators_effect_witness :
  exists self' etf' ef es,
    UpdateMACDIndicators spy_algorithm "SPY" 125 = Ok self' /\
    etfs self' !! "SPY"%string = Some etf' /\
    ema_fast etf' = Some ef /\ ema_slow etf' = Some es /\
    macd etf' = Some (ef - es).
Proof.
  destruct (proj2 (proj2 (proj2 (update_indicators_effect spy_algorithm "SPY"%string 125)))
              spy_data 12%Z 26%Z 9%Z eq_refl eq_refl)
    as (self' & etf' & ef & es & Hu & He & Hf & Hs & Hm & _); [lia | simpl; lia |].
  exists self', etf', ef, es. repeat split; assumption.
Defined.

End IndicatorUpdate.

Section DataFeed.
Import EnhancedETF.

Lemma length_deque_append {A} (maxlen : nat) (x : A) (d : list A) :
  length (deque_append maxlen x d) = Nat.min (S (length d)) maxlen.
Proof.
  unfold deque_append. rewrite length_skipn, length_app. simpl length. lia.
Qed.

Lemma deque_append_room {A} (maxlen : nat) (x : A) (d : list A) :
  (length d < maxlen)%nat -> deque_append maxlen x d = d ++ [x].
Proof.
  intros H. unfold deque_append. rewrite length_app. simpl.
  replace (length d + 1 - maxlen)%nat with 0%nat by lia. reflexivity.
Qed.

Lemma deque_append_full {A} (maxlen : nat) (x : A) (d : list A) :
  (0 < maxlen)%nat -> length d = maxlen -> deque_append maxlen x d = skipn 1 d ++ [x].
Proof.
  intros H0 H. unfold deque_append. rewrite length_app. simpl.
  replace (length d + 1 - maxlen)%nat with 1%nat by lia.
  destruct d as [|y d]; [simpl in H; lia|]. reflexivity.
Qed.

Lemma deque_append_split {A} (maxlen : nat) (x : A) (d : list A) :
  (0 < maxlen)%nat ->
  deque_append maxlen x d = skipn (S (length d) - maxlen) d ++ [x].
Proof.
  intros H0. unfold deque_append. rewrite length_app. simpl.
  replace (length d + 1 - maxlen)%nat with (S (length d) - maxlen)%nat by lia.
  rewrite skipn_app.
  replace (S (length d) - maxlen - length d)%nat with 0%nat by lia. reflexivity.
Qed.

Lemma last_deque_append {A} (maxlen : nat) (x : A) (d : list A) :
  (0 < maxlen)%nat -> last (deque_append maxlen x d) = Some x.
Proof.
  intros H0. rewrite deque_append_split by exact H0. apply last_snoc.
Qed.

(** The entry before the last, [d[-2]], after an append. *)
Lemma previous_after_append (maxlen : nat) (x prev : Q) (d : list Q) :
  (2 <= maxlen)%nat -> last d = Some prev ->
  nth (length (deque_append maxlen x d) - 2) (deque_append maxlen x d) 0 = prev.
Proof.
  intros Hm Hlast.
  assert (Hne : d <> []) by (intros ->; discriminate).
  destruct (exists_last Hne) as (d0 & y & ->).
  rewrite last_snoc in Hlast. injection Hlast as ->.
  rewrite length_deque_append, deque_append_split by lia.
  rewrite length_app. simpl length.
  set (k := (S (length d0 + 1) - maxlen)%nat).
  assert (Hk : (k <= length d0)%nat) by (unfold k; lia).
  rewrite skipn_app. replace (k - length d0)%nat with 0%nat by lia. simpl skipn.
  rewrite <- app_assoc. simpl app.
  replace (Nat.min (S (length d0 + 1)) maxlen - 2)%nat with (length (skipn k d0)).
  - rewrite nth_middle. reflexivity.
  - rewrite length_skipn. unfold k. lia.
Qed.

(** X16.  The body of the loop of [OnData] for one ETF.  It raises
    ZeroDivisionError when the close before is zero.  When it returns, the ETF's price history ends with the new
    close and holds at most 252 closes: the close is appended while there is
    room and pushes out the oldest one when the history is full.  The first
    close adds no return; every later one appends the return
    price / previous - 1 to the returns, which never hold more than 252
    entries.  Position, last signal, parameters and the other ETFs stay as
    they were. *)
Theorem on_data_appends (self : algorithm) (symbol_str : string) (price : Q) :
  (forall etf prev,
     etfs self !! symbol_str = Some etf -> last (price_history etf) = Some prev ->
     prev == 0 ->
     EnhancedETFRun.OnData_symbol self symbol_str price = Raise ZeroDivisionError) /\
  (forall self',
     EnhancedETFRun.OnData_symbol self symbol_str price = Ok self' ->
     exists etf etf',
       etfs self !! symbol_str = Some etf /\ etfs self' !! symbol_str = Some etf' /\
       last (price_history etf') = Some price /\
       length (price_history etf') = Nat.min (S (length (price_history etf))) 252 /\
       ((length (price_history etf) < 252)%nat ->
        price_history etf' = price_history etf ++ [price]) /\
       (length (price_history etf) = 252%nat ->
        price_history etf' = skipn 1 (price_history etf) ++ [price]) /\
       (price_history etf = [] -> returns etf' = returns etf) /\
       (forall prev, last (price_history etf) = Some prev ->
          ~ prev == 0 /\
          last (returns etf') = Some (price / prev - 1) /\
          length (returns etf') = Nat.min (S (length (returns etf))) 252) /\
       position etf' = position etf /\ last_signal etf' = last_signal etf /\
       optimal_params etf' = optimal_params etf /\
       (forall other, other <> symbol_str -> etfs self' !! other = etfs self !! other)).
Proof.
  split.
  - intros etf prev He Hlast Hz. unfold EnhancedETFRun.OnData_symbol, etf_of.
    rewrite He. cbn [rbind].
    rewrite (previous_after_append _ price prev) by (assumption || (unfold EnhancedETFRun.history_maxlen; lia)).
    rewrite length_deque_append.
    assert (Hne : price_history etf <> []) by (intros E; rewrite E in Hlast; discriminate).
    destruct (price_history etf) as [|p ps] eqn:Eh; [congruence|].
    destruct (Nat.ltb_spec 1 (Nat.min (S (length (p :: ps))) EnhancedETFRun.history_maxlen)) as [_|Hc];
      [|unfold EnhancedETFRun.history_maxlen in Hc; simpl in Hc; lia].
    apply Qeq_bool_iff in Hz. rewrite Hz. reflexivity.
  - intros self'. unfold EnhancedETFRun.OnData_symbol, etf_of.
    destruct (etfs self !! symbol_str) as [etf|] eqn:He; cbn [rbind]; [|discriminate].
    match goal with
    | |- rbind ?c _ = _ -> _ => destruct c as [returns'|] eqn:Hret; cbn [rbind]; [|discriminate]
    end.
    intros Hu. apply UpdateMACDIndicators_frame in Hu.
    destruct Hu as (_ & _ & _ & _ & _ & Hother & etf1 & etf' & H1 & H' & Hh & Hr & Hp & Hl & Ho).
    unfold EnhancedETFRun.with_etf in H1, Hother. cbn [etfs] in H1, Hother.
    rewrite lookup_insert_eq in H1. injection H1 as <-.
    cbn [price_history returns position last_signal optimal_params] in Hh, Hr, Hp, Hl, Ho.
    exists etf, etf'. split; [reflexivity|]. split; [exact H'|].
    rewrite Hh, Hr, Hp, Hl, Ho.
    split; [apply last_deque_append; unfold EnhancedETFRun.history_maxlen; lia|].
    split; [apply length_deque_append|].
    split; [intros Hroom; apply deque_append_room; exact Hroom|].
    split; [intros Hfull; apply deque_append_full; [unfold EnhancedETFRun.history_maxlen; lia | exact Hfull]|].
    split.
    { intros Hempty. rewrite Hempty in Hret. cbn in Hret. congruence. }
    split.
    { intros prev Hlast.
      rewrite (previous_after_append _ price prev) in Hret
        by (assumption || (unfold EnhancedETFRun.history_maxlen; lia)).
      rewrite length_deque_append in Hret.
      assert (Hne : price_history etf <> []) by (intros E; rewrite E in Hlast; discriminate).
      destruct (Nat.ltb_spec 1 (Nat.min (S (length (price_history etf))) EnhancedETFRun.history_maxlen))
        as [_|Hc].
      - destruct (Qeq_bool prev 0) eqn:Ez; [discriminate|]. injection Hret as <-.
        split.
        + intros Hz. apply Qeq_bool_iff in Hz. congruence.
        + split; [apply last_deque_append; unfold EnhancedETFRun.history_maxlen; lia|].
          apply length_deque_append.
      - destruct (price_history etf); [congruence|].
        unfold EnhancedETFRun.history_maxlen in Hc. simpl in Hc. lia. }
    repeat (split; [reflexivity|]).
    intros other Hne. rewrite (Hother other Hne). apply lookup_insert_ne. congruence.
Qed.

End DataFeed.

Section RiskSizing.
Variable np_sqrt : Q -> Q.

Lemma sizing_body_range (max_size vol : Q) :
  0 <= max_size ->
  0 <= py_min (max_size * py_min ((15 # 100) / py_max vol (5 # 100)) 2) max_size <= max_size.
Proof.
  intros Hmax. split; [|apply py_min_le_r].
  assert (Hm : 0 < py_max vol (5 # 100)).
  { unfold py_max. destruct (Qlt_le_dec vol (5 # 100)); lra. }
  assert (Hq : 0 < (15 # 100) / py_max vol (5 # 100)) by (apply Qlt_shift_div_l; lra).
  assert (Hva : 0 < py_min ((15 # 100) / py_max vol (5 # 100)) 2).
  { unfold py_min. destruct (Qlt_le_dec 2 ((15 # 100) / py_max vol (5 # 100))); lra. }
  set (va := py_min _ 2) in *.
  unfold py_min. destruct (Qlt_le_dec max_size (max_size * va)); [exact Hmax|nra].
Qed.

Lemma CalculatePositionSize_range (self : EnhancedETF.algorithm) (symbol_str : string)
    (signal : Q) :
  is_Some (EnhancedETF.etfs self !! symbol_str) ->
  0 <= EnhancedETF.max_position_size self ->
  exists size, EnhancedETF.CalculatePositionSize np_sqrt self symbol_str signal = Ok size /\
               0 <= size <= EnhancedETF.max_position_size self.
Proof.
  intros [etf He] Hmax. unfold EnhancedETF.CalculatePositionSize, EnhancedETF.etf_of.
  rewrite He. cbn [rbind].
  destruct (Z.of_nat (length (EnhancedETF.returns etf)) <? EnhancedETF.volatility_window self)%Z.
  - eexists. split; [reflexivity|]. lra.
  - eexists. split; [reflexivity|]. apply sizing_body_range, Hmax.
Qed.

Lemma AdjustForVolatility_range (self : SimpleETF.algorithm) (symbol_str : string) :
  is_Some (SimpleETF.etfs self !! symbol_str) ->
  0 <= SimpleETF.max_position_size self ->
  exists size,
    SimpleETF.AdjustForVolatility np_sqrt self symbol_str (SimpleETF.max_position_size self)
    = Ok size /\
    0 <= size <= SimpleETF.max_position_size self.
Proof.
  intros [etf He] Hmax. unfold SimpleETF.AdjustForVolatility, SimpleETF.etf_of.
  rewrite He. cbn [rbind].
  destruct (Z.of_nat (length (SimpleETF.returns etf)) <? SimpleETF.volatility_window self)%Z.
  - eexists. split; [reflexivity|]. lra.
  - eexists. split; [reflexivity|]. apply sizing_body_range, Hmax.
Qed.

Lemma sized_weight_within (max_size size s w : Q) :
  0 <= size <= max_size ->
  sized_weight (Ok size) s = Some w -> weight_within max_size s w.
Proof.
  intros [Hs0 Hs1]. unfold sized_weight, weight_within.
  destruct (Qeq_bool s 0) eqn:E; cbn [negb].
  - apply Qeq_bool_iff in E. intros [= <-].
    repeat split; try lra; try (intros; reflexivity).
    change (Qabs 0) with 0. rewrite E. change (Qabs 0) with 0. lra.
  - intros [= <-]. repeat split.
    + intros Hz. apply Qeq_bool_iff in Hz. congruence.
    + intros Hp. nra.
    + intros Hn. nra.
    + rewrite Qabs_Qmult. rewrite (Qabs_pos size) by exact Hs0.
      pose proof (Qabs_nonneg s). nra.
Qed.

(** The sizing loop of the enhanced algorithm, key by key. *)
Lemma enhanced_sizing_fold (self : EnhancedETF.algorithm) (signals : gmap string Q) :
  (forall k s, signals !! k = Some s -> is_Some (EnhancedETF.etfs self !! k)) ->
  exists filtered,
    map_fold (fun symbol_str signal (acc : result (gmap string Q)) =>
                filtered_signals <-- acc ;;
                if negb (Qeq_bool signal 0) then
                  position_size <-- EnhancedETF.CalculatePositionSize np_sqrt self symbol_str signal ;;
                  Ok (<[symbol_str := signal * position_size]> filtered_signals)
                else Ok (<[symbol_str := 0]> filtered_signals))
             (Ok ∅) signals = Ok filtered /\
    forall k, filtered !! k
              = signals !! k ≫= sized_weight (EnhancedETF.CalculatePositionSize np_sqrt self k 0).
Proof.
  apply (map_fold_weak_ind
           (fun (r : result (gmap string Q)) (m : gmap string Q) =>
              (forall k s, m !! k = Some s -> is_Some (EnhancedETF.etfs self !! k)) ->
              exists filtered, r = Ok filtered /\
                forall k, filtered !! k
                          = m !! k ≫= sized_weight (EnhancedETF.CalculatePositionSize np_sqrt self k 0))).
  - intros _. exists ∅. split; [reflexivity|]. intros k. rewrite !lookup_empty. reflexivity.
  - intros i x m r Hi IH Hkeys.
    destruct IH as (filtered & -> & Hf).
    { intros k s Hk. apply (Hkeys k s). rewrite lookup_insert_ne; [exact Hk|].
      intros ->. congruence. }
    cbn [rbind].
    assert (Hsize : forall s, EnhancedETF.CalculatePositionSize np_sqrt self i s
                              = EnhancedETF.CalculatePositionSize np_sqrt self i 0)
      by reflexivity.
    destruct (Hkeys i x (lookup_insert_eq m i x)) as [etf He].
    assert (Hok : exists sz, EnhancedETF.CalculatePositionSize np_sqrt self i 0 = Ok sz).
    { unfold EnhancedETF.CalculatePositionSize, EnhancedETF.etf_of. rewrite He. cbn [rbind].
      destruct (_ <? _)%Z; eexists; reflexivity. }
    destruct Hok as [sz Hsz].
    destruct (Qeq_bool x 0) eqn:E; cbn [negb].
    + eexists. split; [reflexivity|]. intros k.
      destruct (decide (i = k)) as [<-|Hne].
      * rewrite !lookup_insert_eq. cbn. unfold sized_weight. rewrite E. reflexivity.
      * rewrite !lookup_insert_ne by exact Hne. apply Hf.
    + rewrite (Hsize x), Hsz. cbn [rbind]. eexists. split; [reflexivity|]. intros k.
      destruct (decide (i = k)) as [<-|Hne].
      * rewrite !lookup_insert_eq. cbn. unfold sized_weight. rewrite E, Hsz. reflexivity.
      * rewrite !lookup_insert_ne by exact Hne. apply Hf.
Qed.

(** X17.  [ApplyRiskManagement] of the enhanced algorithm outside a
    drawdown (drawdown <= max_drawdown), for a non-negative
    [max_position_size], a volatility window of at least one and signals whose symbols all have an entry: it
    returns a map with the keys of the signals; a zero signal gets the weight
    0, any other signal the signal times the size of its ETF; every weight
    has the sign of its signal and is at most |signal| * max_position_size. *)
Theorem risk_sizing_weights (self : EnhancedETF.algorithm) (signals : gmap string Q) :
  EnhancedETF.drawdown self <= EnhancedETF.max_drawdown self ->
  0 <= EnhancedETF.max_position_size self ->
  (1 <= EnhancedETF.volatility_window self)%Z ->
  (forall k s, signals !! k = Some s -> is_Some (EnhancedETF.etfs self !! k)) ->
  exists filtered,
    EnhancedETF.ApplyRiskManagement np_sqrt self signals = Ok filtered /\
    forall k,
      (signals !! k = None -> filtered !! k = None) /\
      (forall s, signals !! k = Some s ->
         exists w size,
           filtered !! k = Some w /\
           EnhancedETF.CalculatePositionSize np_sqrt self k s = Ok size /\
           (~ s == 0 -> w = s * size) /\
           weight_within (EnhancedETF.max_position_size self) s w).
Proof.
  intros Hdd Hmax _ Hkeys. unfold EnhancedETF.ApplyRiskManagement.
  destruct (Qlt_le_dec (EnhancedETF.max_drawdown self) (EnhancedETF.drawdown self)); [lra|].
  destruct (enhanced_sizing_fold self signals Hkeys) as (filtered & Hfold & Hf).
  exists filtered. split; [exact Hfold|]. intros k. split.
  - intros Hk. rewrite Hf, Hk. reflexivity.
  - intros s Hk.
    destruct (CalculatePositionSize_range self k 0 (Hkeys k s Hk) Hmax) as (size & Hsz & Hr).
    assert (Hw : filtered !! k = sized_weight (Ok size) s).
    { rewrite Hf, Hk. cbn. rewrite Hsz. reflexivity. }
    destruct (sized_weight (Ok size) s) as [w|] eqn:Ew.
    + exists w, size. split; [exact Hw|]. split; [exact Hsz|]. split.
      * intros Hnz. unfold sized_weight in Ew.
        destruct (Qeq_bool s 0) eqn:E; [apply Qeq_bool_iff in E; contradiction|].
        cbn in Ew. congruence.
      * exact (sized_weight_within _ _ _ _ Hr Ew).
    + unfold sized_weight in Ew. destruct (negb (Qeq_bool s 0)); discriminate.
Qed.

End RiskSizing.

Lemma risk_sizing_weights_witness :
  exists filtered,
    EnhancedETF.ApplyRiskManagement (fun q => q) spy_algorithm {[ "SPY"%string := 1 ]}
    = Ok filtered /\
    exists w, filtered !! "SPY"%string = Some w /\ 0 <= w.
Proof.
  destruct (risk_sizing_weights (fun q => q) spy_algorithm {[ "SPY"%string := 1 ]})
    as (filtered & Hf & Hk).
  - discriminate.
  - discriminate.
  - simpl. lia.
  - intros k s Hs. apply lookup_singleton_Some in Hs as [<- _]. eexists. reflexivity.
  - exists filtered. split; [exact Hf|].
    destruct (proj2 (Hk "SPY"%string) 1 eq_refl) as (w & size & Hw & _ & _ & Hin).
    exists w. split; [exact Hw|]. apply Hin. discriminate.
Defined.

Section SimpleRiskSizing.
Variable np_sqrt : Q -> Q.

(** The sum [total_signals] is not negative and bounds the size of every
    signal that counts. *)
Lemma total_signals_bounds (signals : gmap string Q) :
  0 <= map_fold (fun _ s (total : Q) => if negb (Qeq_bool s 0) then total + Qabs s else total)
                0 signals /\
  forall k s, signals !! k = Some s ->
    Qabs s <= map_fold (fun _ s (total : Q) =>
                          if negb (Qeq_bool s 0) then total + Qabs s else total)
                       0 signals.
Proof.
  apply (map_fold_weak_ind
           (fun (t : Q) (m : gmap string Q) =>
              0 <= t /\ forall k s, m !! k = Some s -> Qabs s <= t)).
  - split; [lra|]. intros k s Hk. rewrite lookup_empty in Hk. discriminate.
  - intros i x m t Hi [Ht Hall].
    pose proof (Qabs_nonneg x) as Hx.
    destruct (Qeq_bool x 0) eqn:E; cbn [negb].
    + apply Qeq_bool_iff in E. split; [exact Ht|]. intros k s Hk.
      destruct (decide (i = k)) as [<-|Hne].
      * rewrite lookup_insert_eq in Hk. injection Hk as <-. rewrite E.
        change (Qabs 0) with 0. exact Ht.
      * rewrite lookup_insert_ne in Hk by exact Hne. exact (Hall k s Hk).
    + split; [lra|]. intros k s Hk.
      destruct (decide (i = k)) as [<-|Hne].
      * rewrite lookup_insert_eq in Hk. injection Hk as <-. lra.
      * rewrite lookup_insert_ne in Hk by exact Hne. pose proof (Hall k s Hk). lra.
Qed.

Lemma zero_fold_lookup (signals : gmap string Q) (k : string) :
  map_fold (fun symbol_str (_ : Q) (filtered_signals : gmap string Q) =>
              <[symbol_str := 0]> filtered_signals) ∅ signals !! k
  = (fun _ => 0) <$> signals !! k.
Proof.
  revert k. apply (map_fold_weak_ind (fun (r : gmap string Q) (m : gmap string Q) =>
                     forall k, r !! k = (fun _ => 0) <$> m !! k)).
  - intros k. rewrite !lookup_empty. reflexivity.
  - intros i x m r Hi IH k. destruct (decide (i = k)) as [<-|Hne].
    + rewrite !lookup_insert_eq. reflexivity.
    + rewrite !lookup_insert_ne by exact Hne. apply IH.
Qed.

Lemma simple_sizing_fold (self : SimpleETF.algorithm) (signals : gmap string Q) :
  (forall k s, signals !! k = Some s -> is_Some (SimpleETF.etfs self !! k)) ->
  exists filtered,
    map_fold (fun symbol_str signal (acc : result (gmap string Q)) =>
                filtered_signals <-- acc ;;
                if negb (Qeq_bool signal 0) then
                  let position_size := SimpleETF.max_position_size self in
                  position_size <-- SimpleETF.AdjustForVolatility np_sqrt self symbol_str
                                      position_size ;;
                  Ok (<[symbol_str := signal * position_size]> filtered_signals)
                else Ok (<[symbol_str := 0]> filtered_signals))
             (Ok ∅) signals = Ok filtered /\
    forall k, filtered !! k
              = signals !! k ≫= sized_weight (SimpleETF.AdjustForVolatility np_sqrt self k
                                                 (SimpleETF.max_position_size self)).
Proof.
  apply (map_fold_weak_ind
           (fun (r : result (gmap string Q)) (m : gmap string Q) =>
              (forall k s, m !! k = Some s -> is_Some (SimpleETF.etfs self !! k)) ->
              exists filtered, r = Ok filtered /\
                forall k, filtered !! k
                          = m !! k ≫= sized_weight (SimpleETF.AdjustForVolatility np_sqrt self k
                                                       (SimpleETF.max_position_size self)))).
  - intros _. exists ∅. split; [reflexivity|]. intros k. rewrite !lookup_empty. reflexivity.
  - intros i x m r Hi IH Hkeys.
    destruct IH as (filtered & -> & Hf).
    { intros k s Hk. apply (Hkeys k s). rewrite lookup_insert_ne; [exact Hk|].
      intros ->. congruence. }
    cbn [rbind].
    destruct (Hkeys i x (lookup_insert_eq m i x)) as [etf He].
    assert (Hok : exists sz, SimpleETF.AdjustForVolatility np_sqrt self i
                               (SimpleETF.max_position_size self) = Ok sz).
    { unfold SimpleETF.AdjustForVolatility, SimpleETF.etf_of. rewrite He. cbn [rbind].
      destruct (_ <? _)%Z; eexists; reflexivity. }
    destruct Hok as [sz Hsz].
    destruct (Qeq_bool x 0) eqn:E; cbn [negb].
    + eexists. split; [reflexivity|]. intros k.
      destruct (decide (i = k)) as [<-|Hne].
      * rewrite !lookup_insert_eq. cbn. unfold sized_weight. rewrite E. reflexivity.
      * rewrite !lookup_insert_ne by exact Hne. apply Hf.
    + cbv zeta. rewrite Hsz. cbn [rbind]. eexists. split; [reflexivity|]. intros k.
      destruct (decide (i = k)) as [<-|Hne].
      * rewrite !lookup_insert_eq. cbn. unfold sized_weight. rewrite E, Hsz. reflexivity.
      * rewrite !lookup_insert_ne by exact Hne. apply Hf.
Qed.

(** X18.  [ApplyRiskManagement] of the simplified algorithm outside a
    drawdown, for a non-negative [max_position_size], a volatility window of
    at least one and signals whose symbols all have an entry: it returns a
    map with the keys of the signals; a zero signal gets the weight 0, any
    other signal the signal times the volatility-adjusted size of its ETF;
    every weight has the sign of its signal and is at most
    |signal| * max_position_size. *)
Theorem simple_risk_sizing_weights (self : SimpleETF.algorithm) (signals : gmap string Q) :
  SimpleETF.drawdown self <= SimpleETF.max_drawdown self ->
  0 <= SimpleETF.max_position_size self ->
  (1 <= SimpleETF.volatility_window self)%Z ->
  (forall k s, signals !! k = Some s -> is_Some (SimpleETF.etfs self !! k)) ->
  exists filtered,
    SimpleETF.ApplyRiskManagement np_sqrt self signals = Ok filtered /\
    forall k,
      (signals !! k = None -> filtered !! k = None) /\
      (forall s, signals !! k = Some s ->
         exists w size,
           filtered !! k = Some w /\
           SimpleETF.AdjustForVolatility np_sqrt self k (SimpleETF.max_position_size self)
           = Ok size /\
           (~ s == 0 -> w = s * size) /\
           weight_within (SimpleETF.max_position_size self) s w).
Proof.
  intros Hdd Hmax _ Hkeys. unfold SimpleETF.ApplyRiskManagement.
  destruct (Qlt_le_dec (SimpleETF.max_drawdown self) (SimpleETF.drawdown self)); [lra|].
  destruct (total_signals_bounds signals) as [Ht0 Htall].
  destruct (Qeq_bool _ 0) eqn:Etot.
  - apply Qeq_bool_iff in Etot.
    eexists. split; [reflexivity|]. intros k. rewrite zero_fold_lookup. split.
    + intros ->. reflexivity.
    + intros s Hk. rewrite Hk.
      destruct (AdjustForVolatility_range np_sqrt self k (Hkeys k s Hk) Hmax) as (size & Hsz & Hr).
      pose proof (Htall k s Hk) as Hs. rewrite Etot in Hs.
      assert (Hz : s == 0).
      { pose proof (Qabs_nonneg s). apply (proj1 (Qabs_Qle_condition s 0)) in Hs. lra. }
      exists 0, size. split; [reflexivity|]. split; [exact Hsz|]. split; [contradiction|].
      unfold weight_within. repeat split; try lra; try (intros; reflexivity).
      change (Qabs 0) with 0. rewrite Hz. change (Qabs 0) with 0. lra.
  - destruct (simple_sizing_fold self signals Hkeys) as (filtered & Hfold & Hf).
    exists filtered. split; [exact Hfold|]. intros k. split.
    + intros Hk. rewrite Hf, Hk. reflexivity.
    + intros s Hk.
      destruct (AdjustForVolatility_range np_sqrt self k (Hkeys k s Hk) Hmax) as (size & Hsz & Hr).
      assert (Hw : filtered !! k = sized_weight (Ok size) s).
      { rewrite Hf, Hk. cbn. rewrite Hsz. reflexivity. }
      destruct (sized_weight (Ok size) s) as [w|] eqn:Ew.
      * exists w, size. split; [exact Hw|]. split; [exact Hsz|]. split.
        -- intros Hnz. unfold sized_weight in Ew.
           destruct (Qeq_bool s 0) eqn:E; [apply Qeq_bool_iff in E; contradiction|].
           cbn in Ew. congruence.
        -- exact (sized_weight_within _ _ _ _ Hr Ew).
      * unfold sized_weight in Ew. destruct (negb (Qeq_bool s 0)); discriminate.
Qed.

End SimpleRiskSizing.

Lemma simple_risk_sizing_weights_witness :
  exists filtered,
    SimpleETF.ApplyRiskManagement (fun q => q)
      {| SimpleETF.etfs := SimpleETF.etfs drawdown_simple;
         SimpleETF.max_position_size := 125 # 1000;
         SimpleETF.max_drawdown := 15 # 100;
         SimpleETF.drawdown := 0;
         SimpleETF.volatility_window := 2 |}
      {[ "SPY"%string := -1 ]}
    = Ok filtered /\
    exists w, filtered !! "SPY"%string = Some w /\ w <= 0.
Proof.
  destruct (simple_risk_sizing_weights (fun q => q)
      {| SimpleETF.etfs := SimpleETF.etfs drawdown_simple;
         SimpleETF.max_position_size := 125 # 1000;
         SimpleETF.max_drawdown := 15 # 100;
         SimpleETF.drawdown := 0;
         SimpleETF.volatility_window := 2 |}
      {[ "SPY"%string := -1 ]})
    as (filtered & Hf & Hk).
  - discriminate.
  - discriminate.
  - simpl. lia.
  - intros k s Hs. apply lookup_singleton_Some in Hs as [<- _]. eexists. reflexivity.
  - exists filtered. split; [exact Hf|].
    destruct (proj2 (Hk "SPY"%string) (-1) eq_refl) as (w & size & Hw & _ & _ & Hin).
    exists w. split; [exact Hw|]. apply Hin. discriminate.
Defined.

Lemma generate_signal_stored_witness :
  exists self' etf',
    EnhancedETFRun.GenerateSignal (fun q => q) bullish_algorithm "SPY" = Ok (1, self') /\
    EnhancedETF.etfs self' !! "SPY"%string = Some etf' /\
    EnhancedETF.last_signal bullish_data = 0 /\
    EnhancedETF.last_signal etf' = 1 /\
    EnhancedETF.ema_fast etf' = Some 110 /\ EnhancedETF.ema_slow etf' = Some 105.
Proof.
  assert (H1 : exists st, EnhancedETFRun.GenerateSignal (fun q => q) bullish_algorithm "SPY"
                          = Ok (1, st)).
  { eexists. vm_compute. reflexivity. }
  destruct H1 as [st H1].
  destruct (proj2 (generate_signal_stored (fun q => q) bullish_algorithm "SPY"%string
                     bullish_data eq_refl))
    as (signal & self' & etf' & Hg & He & Hl & _ & _ & _ & _ & _ & _ & _ & _ & Hf & Hs & _).
  - eexists. reflexivity.
  - eexists. reflexivity.
  - rewrite H1 in Hg. injection Hg as <- <-.
    exists st, etf'. repeat split; assumption.
Defined.

Lemma simple_signal_values_witness :
  exists v,
    SimpleETFRun.GenerateSignal (fun q => q) drawdown_simple "SPY"
      {| SimpleETFRun.indicators_ready := true;
         SimpleETFRun.macd_line := 2;
         SimpleETFRun.signal_line := 1;
         SimpleETFRun.histogram := 1;
         SimpleETFRun.sma_20 := 100;
         SimpleETFRun.rsi_value := 75;
         SimpleETFRun.current_price := 101 |} = Ok v /\ v <= 0.
Proof.
  destruct (proj2 (simple_signal_values (fun q => q) drawdown_simple "SPY"%string
                     {| SimpleETFRun.indicators_ready := true;
                        SimpleETFRun.macd_line := 2;
                        SimpleETFRun.signal_line := 1;
                        SimpleETFRun.histogram := 1;
                        SimpleETFRun.sma_20 := 100;
                        SimpleETFRun.rsi_value := 75;
                        SimpleETFRun.current_price := 101 |})
              _ eq_refl) as (v & Hv & _ & _ & H70 & _).
  exists v. split; [exact Hv|]. apply H70. reflexivity.
Defined.

Lemma on_data_appends_witness :
  exists self' etf',
    EnhancedETFRun.OnData_symbol spy_algorithm "SPY" 126 = Ok self' /\
    EnhancedETF.etfs self' !! "SPY"%string = Some etf' /\
    last (EnhancedETF.price_history etf') = Some 126 /\
    length (EnhancedETF.price_history etf') = 27%nat.
Proof.
  assert (H : exists self', EnhancedETFRun.OnData_symbol spy_algorithm "SPY" 126 = Ok self').
  { eexists. vm_compute. reflexivity. }
  destruct H as [self' H].
  destruct (proj2 (on_data_appends spy_algorithm "SPY"%string 126) self' H)
    as (etf & etf' & He & He' & Hlast & Hlen & _).
  exists self', etf'. split; [exact H|]. split; [exact He'|]. split; [exact Hlast|].
  injection He as <-. exact Hlen.
Defined.

(** * The hand-written EMA as the program computes it *)

Section FloatEMA.

(** The guards of [EnhancedETFFloat.CalculateEMA] at their thresholds: the
    conversion of an integer overflows from [float_overflow_bound] on and not
    before, and [period + 1.0] is zero at [period = -1]. *)
Lemma float_of_int_thresholds :
  EnhancedETFFloat.float_of_int EnhancedETFFloat.float_overflow_bound
  = S754_infinity false /\
  EnhancedETFFloat.float_of_int (EnhancedETFFloat.float_overflow_bound - 1)
  = S754_finite false (2 ^ 53 - 1) 971 /\
  EnhancedETFFloat.float_of_int (- EnhancedETFFloat.float_overflow_bound)
  = S754_infinity true /\
  EnhancedETFFloat.float_add (EnhancedETFFloat.float_of_int (-1))
                             (EnhancedETFFloat.float_of_int 1)
  = S754_zero false.
Proof. repeat split; vm_compute; reflexivity. Qed.

(** Within the float range of [period] the rounded and the exact recursion
    take the same branch: both return [None], both return a number, or both
    raise the same exception. *)
Lemma CalculateEMA_float_exact_branch
      (prices : list spec_float) (exact_prices : list Q) (period : Z) :
  length prices = length exact_prices ->
  (Z.abs period < EnhancedETFFloat.float_overflow_bound)%Z ->
  match EnhancedETFFloat.CalculateEMA prices period,
        EnhancedETF.CalculateEMA exact_prices period with
  | Ok None, Ok None => True
  | Ok (Some _), Ok (Some _) => True
  | Raise e, Raise e' => e = e'
  | _, _ => False
  end.
Proof.
  intros Hlen Hb. unfold EnhancedETFFloat.CalculateEMA, EnhancedETF.CalculateEMA.
  rewrite Hlen.
  destruct (Z.of_nat (length exact_prices) <? period)%Z; [exact I|].
  destruct (Z.leb_spec EnhancedETFFloat.float_overflow_bound (Z.abs period)) as [Hge|_];
    [lia|].
  destruct (period =? -1)%Z; [reflexivity|].
  destruct prices, exact_prices; try discriminate Hlen; [reflexivity | exact I].
Qed.

(** C10, as claimed, fails on the program: binary64 rounding takes the
    result out of the range of the prices.  On the constant list
    [99.99, 99.99] with period 2 the result is 99.99000000000001, above every
    price and not the constant; on [412.55, 412.55] it is 412.54999999999995,
    below every price. *)
Lemma CalculateEMA_float_leaves_range :
  (exists e, EnhancedETFFloat.CalculateEMA [float_99_99; float_99_99] 2 = Ok (Some e) /\
             e = S754_finite false 0x18ff5c28f5c290 (-46) /\
             SFltb float_99_99 e = true /\ SFeqb e float_99_99 = false) /\
  (exists e, EnhancedETFFloat.CalculateEMA [float_412_55; float_412_55] 2 = Ok (Some e) /\
             e = S754_finite false 0x19c8cccccccccc (-44) /\
             SFltb e float_412_55 = true /\ SFeqb e float_412_55 = false).
Proof.
  split; eexists; (split; [vm_compute; reflexivity|]); repeat split.
Qed.

(** C10, amended.  With the arithmetic of the program, [CalculateEMA] returns
    [None] exactly when the list has fewer than [period] elements.  Otherwise,
    for [period >= 1] within the float range (the list is then non-empty), it
    raises nothing and returns a number: the recursion
    ema = price * m + ema * (1 - m) with m = 2.0 / (period + 1.0), started at
    the first price, run over the remaining prices and rounded at every
    operation; on a list of one price that is the price itself.  Nothing is
    said of its place among the prices: the rounded result can leave their
    range. *)
Theorem CalculateEMA_float_none_or_number (prices : list spec_float) (period : Z) :
  (EnhancedETFFloat.CalculateEMA prices period = Ok None
   <-> (Z.of_nat (length prices) < period)%Z) /\
  ((1 <= period)%Z -> (period <= Z.of_nat (length prices))%Z ->
   (period < EnhancedETFFloat.float_overflow_bound)%Z ->
   exists p0 rest,
     prices = p0 :: rest /\
     EnhancedETFFloat.CalculateEMA prices period
     = Ok (Some (fold_left (EnhancedETFFloat.ema_step (EnhancedETFFloat.multiplier_of period))
                           rest p0)) /\
     (rest = [] -> EnhancedETFFloat.CalculateEMA prices period = Ok (Some p0))).
Proof.
  split.
  - unfold EnhancedETFFloat.CalculateEMA.
    destruct (Z.ltb_spec (Z.of_nat (length prices)) period) as [Hlt|Hge].
    + split; [intros _; exact Hlt | reflexivity].
    + split; [|lia].
      destruct (EnhancedETFFloat.float_overflow_bound <=? Z.abs period)%Z; [discriminate|].
      destruct (period =? -1)%Z; [discriminate|].
      destruct prices; discriminate.
  - intros Hp Hlen Hb. unfold EnhancedETFFloat.CalculateEMA.
    destruct (Z.ltb_spec (Z.of_nat (length prices)) period) as [Hlt|_]; [lia|].
    destruct (Z.leb_spec EnhancedETFFloat.float_overflow_bound (Z.abs period)) as [Hge|_];
      [lia|].
    destruct (Z.eqb_spec period (-1)) as [->|_]; [lia|].
    destruct prices as [|p0 rest]; [simpl in Hlen; lia|].
    exists p0, rest. split; [reflexivity|]. split; [reflexivity|].
    intros ->. reflexivity.
Qed.

Lemma CalculateEMA_float_none_or_number_witness :
  exists e, EnhancedETFFloat.CalculateEMA [float_99_99; float_99_99] 2 = Ok (Some e).
Proof.
  destruct (proj2 (CalculateEMA_float_none_or_number [float_99_99; float_99_99] 2))
    as (p0 & rest & _ & He & _); [lia | simpl; lia | reflexivity |].
  eexists. exact He.
Defined.

End FloatEMA.
